(** * RenderX: the segment-parallel video filter pipeline and its job service

    A shallow embedding of [backend/video_processor.py] and
    [backend/main.py], and the properties of the pipeline that follow from
    the code.

    Conventions of the embedding:
    - Python [float] durations and frame rates are exact rationals ([Q]);
      [round(x, 2)] is round-half-even on hundredths, [int(x)] truncates
      toward zero.
    - Python exceptions are values of [exn]; a function that may raise
      returns a [result].
    - The file system is a finite map from path strings to files; the
      OpenCV and FFmpeg calls are modelled by what they do to that map.
    - What the code observes of its host (CPU count, measured wall-clock
      time, which encoders open, how the external tools exit, the order in
      which pool workers finish) is gathered in a record [host]. *)

From Stdlib Require Import ZArith QArith Qround Lia Permutation.
From Stdlib Require Import Ascii String DecimalString DecimalNat.
From stdpp Require Import base option list strings gmap fin_maps.

Local Open Scope string_scope.
Local Open Scope Z_scope.

(** ** Exceptions and results *)

Inductive exn :=
| HTTPException (status_code : Z) (detail : string)
| KeyError (key : string)
| ValueError (msg : string)
| ZeroDivisionError (msg : string)
| AttributeError (msg : string)
| OSError (msg : string)
| FileNotFoundError (msg : string)
| CalledProcessError (msg : string)
| Exception (msg : string).

(** [str(e)] *)
Definition exn_str (e : exn) : string :=
  match e with
  | HTTPException _ d => d
  | KeyError k => "'" +:+ k +:+ "'"
  | ValueError m | ZeroDivisionError m | AttributeError m | OSError m
  | FileNotFoundError m | CalledProcessError m | Exception m => m
  end.

(** A call returns a value, raises, or never returns (a pool whose task
    never completes blocks its caller for ever). *)
Inductive outcome (A : Type) :=
| Ok (a : A)
| Raise (e : exn)
| NoReturn.
Arguments Ok {A} a.
Arguments Raise {A} e.
Arguments NoReturn {A}.

(** Code that reads and writes a store of type [S] and may raise: the store
    is threaded through, and an exception leaves the store as it was when
    the exception was raised. *)
Definition M (S A : Type) : Type := S -> S * outcome A.

#[export] Instance M_ret {S} : MRet (M S) := fun A a s => (s, Ok a).
#[export] Instance M_bind {S} : MBind (M S) := fun A B k m s =>
  match m s with
  | (s', Ok a) => k a s'
  | (s', Raise e) => (s', Raise e)
  | (s', NoReturn) => (s', NoReturn)
  end.

Definition raise {S A} (e : exn) : M S A := fun s => (s, Raise e).
Definition no_return {S A} : M S A := fun s => (s, NoReturn).
Definition get_store {S} : M S S := fun s => (s, Ok s).
Definition modify {S} (f : S -> S) : M S unit := fun s => (f s, Ok tt).

(** [try: body  except Exception as e: handler e] *)
Definition try_except {S A} (body : M S A) (handler : exn -> M S A) : M S A :=
  fun s =>
    match body s with
    | (s', Raise e) => handler e s'
    | r => r
    end.

(** [if cond: body], with no else branch *)
Definition when {S} (cond : bool) (body : M S unit) : M S unit :=
  if cond then body else mret tt.

(** Running one store's code inside a larger store. *)
Definition zoom {S T A} (proj : T -> S) (inj : S -> T -> T) (m : M S A) : M T A :=
  fun t => let '(s', r) := m (proj t) in (inj s' t, r).

(** ** Python numerics *)

(** [int(x)] on a float: truncation toward zero. *)
Definition py_int (x : Q) : Z := Z.quot (Qnum x) (Z.pos (Qden x)).

(** Round-half-even of a rational to an integer. *)
Definition round_half_even (x : Q) : Z :=
  let f := Qfloor x in
  let twice_frac := (2 * (x - inject_Z f))%Q in
  match Qcompare twice_frac 1 with
  | Lt => f
  | Gt => f + 1
  | Eq => if Z.even f then f else f + 1
  end.

(** [round(x, 2)] *)
Definition round2 (x : Q) : Q := (inject_Z (round_half_even (x * 100)) / 100)%Q.

(** [x > 0] on floats *)
Definition Qpositive (x : Q) : bool := negb (Qle_bool x 0).

(** [a / b], true division: a zero divisor raises. *)
Definition py_truediv {S} (msg : string) (a b : Q) : M S Q :=
  if Qeq_bool b 0 then raise (ZeroDivisionError msg) else mret (a / b)%Q.

(** ** Paths and formatted names *)

(** [str(n)] for a non-negative integer. *)
Definition str_nat (n : nat) : string := NilEmpty.string_of_uint (Nat.to_uint n).

Fixpoint zeros (k : nat) : string :=
  match k with
  | O => ""
  | S k => String "0"%char (zeros k)
  end.

(** [f"{n:03d}"] *)
Definition fmt03 (n : nat) : string :=
  let s := str_nat n in zeros (3 - String.length s) +:+ s.

(** [os.path.join(a, b)] on POSIX, for a non-empty [a] without a trailing
    separator: an absolute [b] discards [a]. *)
Definition path_join (a b : string) : string :=
  if String.prefix "/" b then b else a +:+ "/" +:+ b.

(** [os.path.basename(p)]: what follows the last separator. *)
Fixpoint basename_from (cur p : string) : string :=
  match p with
  | EmptyString => cur
  | String c r =>
      if Ascii.eqb c "/"%char then basename_from "" r
      else basename_from (cur +:+ String c "") r
  end.

Definition basename (p : string) : string := basename_from "" p.

(** [repr] of a list of plain strings: [['a', 'b']]. *)
Fixpoint repr_items (l : list string) : string :=
  match l with
  | [] => ""
  | [x] => "'" +:+ x +:+ "'"
  | x :: rest => "'" +:+ x +:+ "', " +:+ repr_items rest
  end.

Definition repr_str_list (l : list string) : string := "[" +:+ repr_items l +:+ "]".

(** [sep.join(l)] *)
Fixpoint str_join (sep : string) (l : list string) : string :=
  match l with
  | [] => ""
  | [x] => x
  | x :: rest => x +:+ sep +:+ str_join sep rest
  end.

(** [str(z)] for an integer. *)
Definition str_int (z : Z) : string :=
  if (z <? 0)%Z then "-" +:+ str_nat (Z.to_nat (- z)) else str_nat (Z.to_nat z).

(** [s.lower()], on the letters A to Z. *)
Definition lower_char (c : ascii) : ascii :=
  let n := nat_of_ascii c in
  if ((65 <=? n) && (n <=? 90))%nat then ascii_of_nat (n + 32) else c.

Fixpoint lower (s : string) : string :=
  match s with
  | EmptyString => EmptyString
  | String c r => String (lower_char c) (lower r)
  end.

(** [s.rfind(c)]: the last index of [c] in [s], or -1. *)
Fixpoint rfind_from (c : ascii) (s : string) (i last : Z) : Z :=
  match s with
  | EmptyString => last
  | String a r => rfind_from c r (i + 1) (if Ascii.eqb a c then i else last)
  end.

Definition rfind (c : ascii) (s : string) : Z := rfind_from c s 0 (-1).

(** The loop of [os.path.splitext] that skips the leading dots of the last
    component: the first character before [dotIndex] that is not a dot
    settles the split. *)
Fixpoint splitext_scan (p : string) (dotIndex : Z) (steps : nat) (filenameIndex : Z)
    : option (string * string) :=
  match steps with
  | O => None
  | S steps =>
      if (filenameIndex <? dotIndex)%Z then
        match String.get (Z.to_nat filenameIndex) p with
        | Some c =>
            if Ascii.eqb c "."%char
            then splitext_scan p dotIndex steps (filenameIndex + 1)
            else Some (String.substring 0 (Z.to_nat dotIndex) p,
                       String.substring (Z.to_nat dotIndex)
                                        (String.length p - Z.to_nat dotIndex) p)
        | None => None
        end
      else None
  end.

(** [os.path.splitext(p)] on POSIX. *)
Definition splitext (p : string) : string * string :=
  let sepIndex := rfind "/"%char p in
  let dotIndex := rfind "."%char p in
  if (sepIndex <? dotIndex)%Z then
    match splitext_scan p dotIndex (String.length p) (sepIndex + 1) with
    | Some r => r
    | None => (p, "")
    end
  else (p, "").

(** * video_processor.py *)

(** Decoded frames are opaque images; the nine pixel transforms are OpenCV
    and NumPy calls, taken here as given functions on frames. *)
Class PixelTransforms (Frame : Type) := {
  apply_grayscale : Frame -> Frame;
  apply_blur : Frame -> Frame;
  apply_sepia : Frame -> Frame;
  apply_brightness : Frame -> Frame;
  apply_contrast : Frame -> Frame;
  apply_saturation : Frame -> Frame;
  apply_warm_tone : Frame -> Frame;
  apply_cool_tone : Frame -> Frame;
  apply_edge_detection : Frame -> Frame
}.

Module video_processor.
Section Pipeline.

Context {Frame : Type} `{!PixelTransforms Frame}.

(** ** Files *)

Record video := mk_video {
  v_fps : Q;
  v_width : Z;
  v_height : Z;
  v_frame_count : Z;      (* CAP_PROP_FRAME_COUNT, as the container reports it *)
  v_audio : bool;         (* the container holds an audio stream *)
  v_frames : list Frame   (* what successive cap.read() calls decode *)
}.

Inductive file :=
| FVideo (v : video)
| FAudio
| FOther.                 (* present, but not a decodable video *)

Abbreviation filesystem := (gmap string file).

(** ** The host *)

Inductive fourcc := avc1 | mp4v.

Inductive tool_run :=
| NotInstalled            (* subprocess.run raises FileNotFoundError *)
| ExitNonZero
| ExitZero.

Record host := mk_host {
  cpu_count : Z;
  (** [end_time - start_time] around the pool in [process_parallel] *)
  measured_time : Q;
  (** whether [cv2.VideoWriter(path, fourcc, fps, (w, h))] is opened *)
  writer_opens : fourcc -> Q -> Z -> Z -> bool;
  ffprobe : tool_run;
  ffmpeg_extract : tool_run;
  ffmpeg_remux : tool_run;
  (** the order in which the pool's tasks complete, by task index *)
  completion_order : list nat
}.

(** ** Filter catalog *)

Definition FILTERS : list (string * (Frame -> Frame)) :=
  [ ("grayscale", apply_grayscale);
    ("blur", apply_blur);
    ("sepia", apply_sepia);
    ("brightness", apply_brightness);
    ("contrast", apply_contrast);
    ("saturation", apply_saturation);
    ("warm_tone", apply_warm_tone);
    ("cool_tone", apply_cool_tone);
    ("edge_detection", apply_edge_detection) ].

Fixpoint dict_get {V} (d : list (string * V)) (k : string) : option V :=
  match d with
  | [] => None
  | (k', v) :: rest => if String.eqb k k' then Some v else dict_get rest k
  end.

Definition dict_keys {V} (d : list (string * V)) : list string := map fst d.

(** [FILTERS.get(filter_type, lambda x: x)] *)
Definition get_filter_function (filter_type : string) : Frame -> Frame :=
  default (fun x => x) (dict_get FILTERS filter_type).

(** ** OpenCV capture and writer *)

Record capture := mk_capture {
  cap_opened : bool;
  cap_fps : Q;
  cap_width : Z;
  cap_height : Z;
  cap_frame_count : Z;
  cap_frames : list Frame
}.

(** What a capture of [path] sees: a path that is not a decodable video
    gives a capture that is not opened, whose properties read as 0 and
    whose [read()] returns [(False, None)] at once. *)
Definition decode (fs : filesystem) (path : string) : capture :=
  match fs !! path with
  | Some (FVideo v) =>
      mk_capture true (v_fps v) (v_width v) (v_height v) (v_frame_count v) (v_frames v)
  | _ => mk_capture false 0 0 0 0 []
  end.

Abbreviation IO := (M filesystem).

(** [cv2.VideoCapture(path)]; nothing is raised on a bad path. *)
Definition VideoCapture (path : string) : IO capture :=
  fs ← get_store; mret (decode fs path).

Record writer := mk_writer {
  w_path : string;
  w_opened : bool
}.

(** [cv2.VideoWriter(path, fourcc, fps, (width, height))]: an opened writer
    starts an empty video at [path]; one that is not opened leaves the
    file system alone. *)
Definition VideoWriter (h : host) (path : string) (cc : fourcc)
    (fps : Q) (width height : Z) : IO writer :=
  if writer_opens h cc fps width height
  then _ ← modify (insert path (FVideo (mk_video fps width height 0 false [])));
       mret (mk_writer path true)
  else mret (mk_writer path false).

Definition append_frame (frame : Frame) (f : file) : file :=
  match f with
  | FVideo v =>
      FVideo (mk_video (v_fps v) (v_width v) (v_height v) (v_frame_count v + 1)
                       (v_audio v) (v_frames v ++ [frame]))
  | other => other
  end.

(** [out.write(frame)]: silently dropped when the writer is not opened. *)
Definition writer_write (out : writer) (frame : Frame) : IO unit :=
  when (w_opened out) (modify (alter (append_frame frame) (w_path out))).

(** The pattern shared by the worker and the merger:
    try 'avc1', fall back to 'mp4v'. *)
Definition VideoWriter_with_fallback (h : host) (path : string)
    (fps : Q) (width height : Z) : IO writer :=
  out ← VideoWriter h path avc1 fps width height;
  if negb (w_opened out) then VideoWriter h path mp4v fps width height
  else mret out.

(** [for x in xs: body x] *)
Fixpoint for_each {S A} (xs : list A) (body : A -> M S unit) : M S unit :=
  match xs with
  | [] => mret tt
  | x :: rest => _ ← body x; for_each rest body
  end.

(** ** Audio sidecar *)

(** ['audio' in result.stdout] for the ffprobe call of [extract_audio];
    the probe is run without [check=True], so its exit status is not
    looked at. *)
Definition probe_reports_audio (h : host) (video_path : string) : IO bool :=
  match ffprobe h with
  | NotInstalled => raise (FileNotFoundError "ffprobe")
  | ExitNonZero => mret false
  | ExitZero =>
      fs ← get_store;
      match fs !! video_path with
      | Some (FVideo v) => mret (v_audio v)
      | _ => mret false
      end
  end.

(** [subprocess.run(cmd, capture_output=True, check=True)] for the
    extracting ffmpeg call. *)
Definition run_extract (h : host) (audio_path : string) : IO unit :=
  match ffmpeg_extract h with
  | NotInstalled => raise (FileNotFoundError "ffmpeg")
  | ExitNonZero => raise (CalledProcessError "ffmpeg")
  | ExitZero => modify (insert audio_path FAudio)
  end.

Definition extract_audio (h : host) (video_path audio_path : string) : IO bool :=
  try_except
    (has ← probe_reports_audio h video_path;
     if negb has then mret false
     else _ ← run_extract h audio_path; mret true)
    (fun e =>
       match e with
       | CalledProcessError _ => mret false
       | FileNotFoundError _ => mret false
       | other => raise other
       end).

(** The muxing ffmpeg call: it exits non-zero when an input is missing. *)
Definition run_remux (h : host) (video_path audio_path temp_output : string)
    : IO unit :=
  match ffmpeg_remux h with
  | NotInstalled => raise (FileNotFoundError "ffmpeg")
  | ExitNonZero => raise (CalledProcessError "ffmpeg")
  | ExitZero =>
      fs ← get_store;
      match fs !! video_path, fs !! audio_path with
      | Some (FVideo v), Some FAudio =>
          modify (insert temp_output
                    (FVideo (mk_video (v_fps v) (v_width v) (v_height v)
                                      (v_frame_count v) true (v_frames v))))
      | _, _ => raise (CalledProcessError "ffmpeg")
      end
  end.

(** [os.path.exists(path)] *)
Definition path_exists (path : string) : IO bool :=
  fs ← get_store; mret (bool_decide (is_Some (fs !! path))).

(** [os.remove(path)] *)
Definition os_remove (path : string) : IO unit :=
  fs ← get_store;
  match fs !! path with
  | Some _ => modify (delete path)
  | None => raise (FileNotFoundError path)
  end.

(** [shutil.move(src, dst)] *)
Definition shutil_move (src dst : string) : IO unit :=
  fs ← get_store;
  match fs !! src with
  | Some f => modify (fun fs => <[dst := f]> (delete src fs))
  | None => raise (FileNotFoundError src)
  end.

Definition merge_audio_with_video (h : host)
    (video_path audio_path output_path : string) : IO bool :=
  let temp_output := output_path +:+ ".temp.mp4" in
  try_except
    (_ ← run_remux h video_path audio_path temp_output;
     ex ← path_exists output_path;
     _ ← when ex (os_remove output_path);
     _ ← shutil_move temp_output output_path;
     mret true)
    (fun e =>
       match e with
       | CalledProcessError _ =>
           ex ← path_exists temp_output;
           _ ← when ex (os_remove temp_output);
           mret false
       | FileNotFoundError _ => mret false
       | other => raise other
       end).

(** ** The worker *)

(** [apply_filter_to_segment(args)], with
    [args = (segment_path, filter_type, output_path, segment_index)]. *)
Definition apply_filter_to_segment (h : host)
    (args : string * string * string * nat) : IO string :=
  let '(segment_path, filter_type, output_path, segment_index) := args in
  try_except
    (cap ← VideoCapture segment_path;
     let fps := cap_fps cap in
     let width := cap_width cap in
     let height := cap_height cap in
     out ← VideoWriter_with_fallback h output_path fps width height;
     let filter_func := get_filter_function filter_type in
     _ ← for_each (cap_frames cap)
           (fun frame =>
              let processed := filter_func frame in
              writer_write out processed);
     mret output_path)
    (fun e => raise e).

(** ** The processor *)

Record VideoProcessor := mk_processor {
  video_path : string;
  segment_duration : Q;
  segments_dir : string;
  output_dir : string
}.

(** [VideoProcessor(video_path, segment_duration=10)] *)
Definition init (video_path : string) (segment_duration : Q) : VideoProcessor :=
  mk_processor video_path segment_duration "segments" "outputs".

Definition default_segment_duration : Q := 10.

(** *** split_video *)

(** The local variables of the reading loop. *)
Record split_vars := mk_split {
  current_segment : nat;
  frame_count : Z;
  out : option writer;
  segment_paths : list string
}.

Definition segment_name (i : nat) : string := "segment_" +:+ fmt03 i +:+ ".mp4".

Definition segment_path_of (self : VideoProcessor) (i : nat) : string :=
  path_join (segments_dir self) (segment_name i).

(** The body of the reading loop, for one decoded frame. *)
Definition split_body (h : host) (self : VideoProcessor)
    (fps : Q) (width height : Z) (frames_per_segment : Z)
    (frame : Frame) (st : split_vars) : IO split_vars :=
  st1 ← (if (frame_count st mod frames_per_segment =? 0)%Z then
           (* the previous writer, if any, is released; a new segment starts *)
           let segment_path := segment_path_of self (current_segment st) in
           w ← VideoWriter h segment_path avc1 fps width height;
           mret (mk_split (S (current_segment st)) (frame_count st) (Some w)
                          (segment_paths st ++ [segment_path]))
         else mret st);
  match out st1 with
  | None => raise (AttributeError "'NoneType' object has no attribute 'write'")
  | Some w =>
      _ ← writer_write w frame;
      mret (mk_split (current_segment st1) (frame_count st1 + 1) (out st1)
                     (segment_paths st1))
  end.

Fixpoint split_loop (h : host) (self : VideoProcessor)
    (fps : Q) (width height : Z) (frames_per_segment : Z)
    (frames : list Frame) (st : split_vars) : IO split_vars :=
  match frames with
  | [] => mret st
  | frame :: rest =>
      st' ← split_body h self fps width height frames_per_segment frame st;
      split_loop h self fps width height frames_per_segment rest st'
  end.

(** [int(fps * self.segment_duration)] *)
Definition frames_per_segment_of (fps : Q) (self : VideoProcessor) : Z :=
  py_int (fps * segment_duration self).

(** [int(np.ceil(total_frames / frames_per_segment))] *)
Definition segment_count_of (total_frames frames_per_segment : Z) : IO Z :=
  ratio ← py_truediv "division by zero" (inject_Z total_frames)
                     (inject_Z frames_per_segment);
  mret (Qceiling ratio).

Definition split_video (h : host) (self : VideoProcessor) : IO (list string) :=
  cap ← VideoCapture (video_path self);
  if negb (cap_opened cap) then raise (Exception "Could not open video file") else
  let fps := cap_fps cap in
  let width := cap_width cap in
  let height := cap_height cap in
  let total_frames := cap_frame_count cap in
  duration ← py_truediv "float division by zero" (inject_Z total_frames) fps;
  let frames_per_segment := frames_per_segment_of fps self in
  (* segment_count is only printed *)
  segment_count ← segment_count_of total_frames frames_per_segment;
  st ← split_loop h self fps width height frames_per_segment (cap_frames cap)
                  (mk_split 0 0 None []);
  mret (segment_paths st).

(** *** process_parallel *)

(** [pool.map(f, args_list)]: the tasks run and complete in the host's
    completion order, each result is filed under its task index, and the
    list handed back is read off by index.  The first task that raises makes
    the call raise; a task that never completes leaves it blocked. *)
Fixpoint pool_run {A R} (f : A -> IO R) (args_list : list A) (order : list nat)
    (done : gmap nat R) : IO (gmap nat R) :=
  match order with
  | [] => mret done
  | i :: later =>
      match args_list !! i with
      | None => pool_run f args_list later done
      | Some a =>
          r ← f a;
          pool_run f args_list later (<[i := r]> done)
      end
  end.

Fixpoint pool_collect {R} (done : gmap nat R) (indices : list nat) : IO (list R) :=
  match indices with
  | [] => mret []
  | i :: rest =>
      match done !! i with
      | None => no_return
      | Some r => rs ← pool_collect done rest; mret (r :: rs)
      end
  end.

Definition pool_map {A R} (f : A -> IO R) (args_list : list A)
    (order : list nat) : IO (list R) :=
  done ← pool_run f args_list order ∅;
  pool_collect done (seq 0 (length args_list)).

Definition par_name (i : nat) : string := "par_processed_" +:+ fmt03 i +:+ ".mp4".

Definition par_path (self : VideoProcessor) (i : nat) : string :=
  path_join (output_dir self) (par_name i).

(** [[(segment_path, filter_type, join(output_dir, par_name i), i+1)
      for i, segment_path in enumerate(segment_paths)]] *)
Definition args_list_of (self : VideoProcessor) (segment_paths : list string)
    (filter_type : string) : list (string * string * string * nat) :=
  imap (fun i segment_path => (segment_path, filter_type, par_path self i, S i))
       segment_paths.

Definition process_parallel (h : host) (self : VideoProcessor)
    (segment_paths : list string) (filter_type : string)
    : IO (list string * Q) :=
  let num_cores := cpu_count h in
  let args_list := args_list_of self segment_paths filter_type in
  (* Pool(processes=num_cores) *)
  if (num_cores <? 1)%Z
  then raise (ValueError "Number of processes must be at least 1") else
  processed_paths ←
     pool_map (apply_filter_to_segment h) args_list (completion_order h);
  let execution_time := measured_time h in
  mret (processed_paths, execution_time).

(** *** merge_segments *)

Definition merge_segments (h : host) (segment_paths : list string)
    (output_path : string) : IO unit :=
  match segment_paths with
  | [] => raise (Exception "No segments to merge")
  | first :: _ =>
      cap ← VideoCapture first;
      let fps := cap_fps cap in
      let width := cap_width cap in
      let height := cap_height cap in
      out ← VideoWriter_with_fallback h output_path fps width height;
      for_each segment_paths
        (fun segment_path =>
           cap ← VideoCapture segment_path;
           for_each (cap_frames cap) (fun frame => writer_write out frame))
  end.

(** *** cleanup_segments *)

Definition is_transient (self : VideoProcessor) (path : string) : bool :=
  String.prefix (segments_dir self +:+ "/") path
  || String.prefix (output_dir self +:+ "/seq_") path
  || String.prefix (output_dir self +:+ "/par_") path.

Definition cleanup_segments (self : VideoProcessor) : IO unit :=
  modify (filter (fun kv => is_transient self kv.1 = false)).

(** *** process_video *)

(** The dictionary returned on success. *)
Record metrics := mk_metrics {
  output_path : string;
  sequential_time : Q;
  parallel_time : Q;
  speedup : Q;
  segments_processed : Z;
  cpu_cores_used : Z;
  audio_preserved : bool
}.

(** [{'success': True, ...}] or [{'success': False, 'error': ...}] *)
Inductive pipeline_result :=
| Success (m : metrics)
| Failure (error : string).

(** Steps 5 and 6: the estimated sequential time and the speedup. *)
Definition estimate (par_time : Q) (num_cores : Z) (segments : Z) : Q * Q :=
  let estimated_seq_time := (par_time * inject_Z (Z.min num_cores segments))%Q in
  let speedup := if Qpositive par_time then (estimated_seq_time / par_time)%Q else 1%Q in
  (estimated_seq_time, speedup).

Definition unknown_filter_message (filter_type : string) : string :=
  "Unknown filter: " +:+ filter_type +:+ ". Available: "
  +:+ repr_str_list (dict_keys FILTERS).

Definition process_video (h : host) (self : VideoProcessor)
    (filter_type output_filename : string) : IO pipeline_result :=
  try_except
    ((* Validate filter type *)
     if negb (bool_decide (is_Some (dict_get FILTERS filter_type)))
     then raise (ValueError (unknown_filter_message filter_type)) else
     (* Step 0 *)
     let audio_path := path_join (segments_dir self) "original_audio.aac" in
     has_audio ← extract_audio h (video_path self) audio_path;
     (* Step 1 *)
     segment_paths ← split_video h self;
     (* Step 2 *)
     '(par_paths, par_time) ← process_parallel h self segment_paths filter_type;
     (* Step 3 *)
     let output_path := path_join (output_dir self) output_filename in
     _ ← merge_segments h par_paths output_path;
     (* Step 4 *)
     ex ← path_exists audio_path;
     _ ← (if has_audio && ex
          then _ ← merge_audio_with_video h output_path audio_path output_path;
               mret tt
          else mret tt);
     (* Steps 5 and 6 *)
     let num_cores := cpu_count h in
     let '(estimated_seq_time, speedup) :=
       estimate par_time num_cores (Z.of_nat (length segment_paths)) in
     (* Step 7 *)
     _ ← cleanup_segments self;
     mret (Success (mk_metrics output_path
                      (round2 estimated_seq_time)
                      (round2 par_time)
                      (round2 speedup)
                      (Z.of_nat (length segment_paths))
                      num_cores
                      has_audio)))
    (fun e => mret (Failure (exn_str e))).

(** *** get_video_analytics *)

(** The dictionary of analytics. *)
Record analytics := mk_analytics {
  a_duration : Q;
  a_width : Z;
  a_height : Z;
  a_fps : Q;
  aspect_ratio : string;
  total_frames : Z;
  has_audio : bool;
  file_size_mb : Q;
  bitrate_mbps : Q
}.

(** [os.path.getsize(path)]: the file system of the model keeps no sizes,
    so what the call gives for the processor's video is an argument,
    [None] when it raises. *)
Definition os_path_getsize (size : option Z) (path : string) : IO Z :=
  match size with
  | Some z => mret z
  | None => raise (OSError path)
  end.

Definition get_video_analytics (size : option Z) (self : VideoProcessor) : IO analytics :=
  try_except
    (cap ← VideoCapture (video_path self);
     if negb (cap_opened cap) then raise (Exception "Could not open video file") else
     let fps := cap_fps cap in
     let width := cap_width cap in
     let height := cap_height cap in
     let total_frames := cap_frame_count cap in
     let duration := if Qpositive fps then (inject_Z total_frames / fps)%Q else 0%Q in
     file_size ← os_path_getsize size (video_path self);
     let file_size_mb := round2 (inject_Z file_size / inject_Z (1024 * 1024)) in
     let bitrate_mbps :=
       if Qpositive duration
       then round2 (inject_Z (file_size * 8) / (duration * 1000000))
       else 0%Q in
     mret (mk_analytics (round2 duration) width height (round2 fps)
             (str_int width +:+ ":" +:+ str_int height)
             total_frames false file_size_mb bitrate_mbps))
    (fun e =>
       file_size ← try_except (os_path_getsize size (video_path self))
                              (fun _ => mret 0%Z);
       mret (mk_analytics 0 0 0 0 "Unknown" 0 false
               (if (file_size =? 0)%Z then 0%Q
                else round2 (inject_Z file_size / inject_Z (1024 * 1024)))
               0)).

(** *** apply_filter and process_sequential *)

Definition apply_filter (h : host) (self : VideoProcessor)
    (video_path filter_type output_path : string) : IO unit :=
  cap ← VideoCapture video_path;
  if negb (cap_opened cap)
  then raise (Exception ("Could not open video: " +:+ video_path)) else
  let fps := cap_fps cap in
  let width := cap_width cap in
  let height := cap_height cap in
  out ← VideoWriter_with_fallback h output_path fps width height;
  let filter_func := get_filter_function filter_type in
  for_each (cap_frames cap)
    (fun frame =>
       let processed := filter_func frame in
       writer_write out processed).

Definition seq_name (i : nat) : string := "seq_processed_" +:+ fmt03 i +:+ ".mp4".

Definition seq_path (self : VideoProcessor) (i : nat) : string :=
  path_join (output_dir self) (seq_name i).

(** [for i, segment_path in enumerate(segment_paths): ...], from index [i]. *)
Fixpoint sequential_loop (h : host) (self : VideoProcessor) (filter_type : string)
    (i : nat) (segment_paths : list string) (processed_paths : list string)
    : IO (list string) :=
  match segment_paths with
  | [] => mret processed_paths
  | segment_path :: rest =>
      let output_path := seq_path self i in
      _ ← apply_filter h self segment_path filter_type output_path;
      sequential_loop h self filter_type (S i) rest (processed_paths ++ [output_path])%list
  end.

(** [execution_time] is the wall-clock time measured around the loop. *)
Definition process_sequential (h : host) (execution_time : Q) (self : VideoProcessor)
    (segment_paths : list string) (filter_type : string) : IO (list string * Q) :=
  processed_paths ← sequential_loop h self filter_type 0 segment_paths [];
  mret (processed_paths, execution_time).

(** [list(FILTERS.keys())] *)
Definition get_available_filters : list string := dict_keys FILTERS.

End Pipeline.

Abbreviation IO Frame := (M (gmap string (@file Frame))).

End video_processor.

(** * main.py *)

Module main.
Import video_processor.
Section Service.

Context {Frame : Type} `{!PixelTransforms Frame}.

(** ** The job table *)

(** A job record: the dictionary built by [upload_video], with the keys
    that [process_in_background] adds later as optional fields.  The
    ['analytics'] entry, which none of the operations below reads, is left
    out. *)
Record job := mk_job {
  job_id : string;
  status : string;
  filename : string;
  file_path : string;
  filter_type : option string;
  j_sequential_time : option Q;
  j_parallel_time : option Q;
  j_speedup : option Q;
  j_segments_processed : option Z;
  j_cpu_cores_used : option Z;
  output_filename : option string;
  j_output_path : option string;
  error : option string
}.

(** The record [upload_video] stores for a new upload. *)
Definition uploaded_job (job_id filename file_path : string) : job :=
  mk_job job_id "uploaded" filename file_path None
         None None None None None None None None.

Definition set_status (s : string) (j : job) : job :=
  mk_job (job_id j) s (filename j) (file_path j) (filter_type j)
         (j_sequential_time j) (j_parallel_time j) (j_speedup j)
         (j_segments_processed j) (j_cpu_cores_used j)
         (output_filename j) (j_output_path j) (error j).

Definition set_filter_type (f : string) (j : job) : job :=
  mk_job (job_id j) (status j) (filename j) (file_path j) (Some f)
         (j_sequential_time j) (j_parallel_time j) (j_speedup j)
         (j_segments_processed j) (j_cpu_cores_used j)
         (output_filename j) (j_output_path j) (error j).

Definition set_error (e : string) (j : job) : job :=
  mk_job (job_id j) (status j) (filename j) (file_path j) (filter_type j)
         (j_sequential_time j) (j_parallel_time j) (j_speedup j)
         (j_segments_processed j) (j_cpu_cores_used j)
         (output_filename j) (j_output_path j) (Some e).

(** The seven assignments of the success branch after the status. *)
Definition set_results (m : metrics) (j : job) : job :=
  mk_job (job_id j) (status j) (filename j) (file_path j) (filter_type j)
         (Some (sequential_time m)) (Some (parallel_time m)) (Some (speedup m))
         (Some (segments_processed m)) (Some (cpu_cores_used m))
         (Some (basename (output_path m))) (Some (output_path m)) (error j).

(** What [jobs.json] holds. *)
Inductive jobs_file_state :=
| NoFile
| Unparseable                              (* json.load raises on it *)
| Holds (d : gmap string job).

(** A task handed to the event loop by [asyncio.create_task]:
    [process_in_background(job_id, video_path, filter_type)]. *)
Record background_task := mk_task {
  t_job_id : string;
  t_video_path : string;
  t_filter_type : string
}.

Record state := mk_state {
  jobs : gmap string job;
  jobs_file : jobs_file_state;
  jobs_file_writable : bool;
  disk : gmap string (@file Frame);
  tasks : list background_task
}.

Abbreviation App := (M state).

Definition set_jobs (d : gmap string job) (st : state) : state :=
  mk_state d (jobs_file st) (jobs_file_writable st) (disk st) (tasks st).

Definition set_jobs_file (f : jobs_file_state) (st : state) : state :=
  mk_state (jobs st) f (jobs_file_writable st) (disk st) (tasks st).

Definition set_disk (d : gmap string (@file Frame)) (st : state) : state :=
  mk_state (jobs st) (jobs_file st) (jobs_file_writable st) d (tasks st).

Definition add_task (t : background_task) (st : state) : state :=
  mk_state (jobs st) (jobs_file st) (jobs_file_writable st) (disk st) (tasks st ++ [t]).

(** Code of the processor, run on the service's disk. *)
Definition on_disk {A} (m : IO Frame A) : App A := zoom disk set_disk m.

(** [json.load(f)] on the opened jobs file *)
Definition json_load : App (gmap string job) :=
  st ← get_store;
  match jobs_file st with
  | NoFile => raise (FileNotFoundError "jobs.json")
  | Unparseable => raise (ValueError "Expecting value: line 1 column 1 (char 0)")
  | Holds d => mret d
  end.

Definition load_jobs : App unit :=
  try_except
    (st ← get_store;
     (* if os.path.exists(JOBS_FILE) *)
     match jobs_file st with
     | NoFile => mret tt
     | _ => d ← json_load; modify (set_jobs d)
     end)
    (fun e => modify (set_jobs ∅)).

Definition save_jobs : App unit :=
  try_except
    (st ← get_store;
     if jobs_file_writable st then modify (set_jobs_file (Holds (jobs st)))
     else raise (OSError "jobs.json"))
    (fun e => mret tt).

(** Module level: [jobs = {}], then [load_jobs()]. *)
Definition startup : App unit :=
  _ ← modify (set_jobs ∅); load_jobs.

(** ** POST /process *)

Record ProcessRequest := mk_request {
  req_job_id : string;
  req_filter_type : string
}.

Definition valid_filters : list string :=
  ["grayscale"; "blur"; "sepia"; "brightness"; "contrast";
   "saturation"; "warm_tone"; "cool_tone"; "edge_detection"].

Definition invalid_filter_detail : string :=
  "Invalid filter type. Use one of: " +:+ str_join ", " valid_filters.

(** [job[...] = ...] on the record shared with the table: the update is
    seen through [jobs[job_id]]. *)
Definition update_job (job_id : string) (f : job -> job) : App unit :=
  modify (fun st => set_jobs (alter f job_id (jobs st)) st).

Definition start_processing (request : ProcessRequest)
    : App (string * string * string) :=
  let job_id := req_job_id request in
  let filter_type := req_filter_type request in
  st ← get_store;
  match jobs st !! job_id with
  | None => raise (HTTPException 404 "Job not found")
  | Some job =>
      if negb (bool_decide (filter_type ∈ valid_filters))
      then raise (HTTPException 400 invalid_filter_detail)
      else
        _ ← update_job job_id (set_status "processing");
        _ ← update_job job_id (set_filter_type filter_type);
        _ ← save_jobs;
        _ ← modify (add_task (mk_task job_id (file_path job) filter_type));
        mret ("Processing started", job_id, filter_type)
  end.

(** ** The background run *)

(** [process_video_task(job_id, video_path, filter_type)], which the
    executor runs in its own process. *)
Definition process_video_task (h : host) (job_id video_path filter_type : string)
    : IO Frame (string * pipeline_result) :=
  try_except
    (let processor := init video_path default_segment_duration in
     let output_filename := job_id +:+ "_processed.mp4" in
     result ← process_video h processor filter_type output_filename;
     mret (job_id, result))
    (fun e => mret (job_id, Failure (exn_str e))).

(** [jobs[job_id]] *)
Definition jobs_getitem (job_id : string) : App job :=
  st ← get_store;
  match jobs st !! job_id with
  | Some job => mret job
  | None => raise (KeyError job_id)
  end.

(** [jobs[job_id][...] = ...] *)
Definition jobs_setitem (job_id : string) (f : job -> job) : App unit :=
  _ ← jobs_getitem job_id; update_job job_id f.

(** [process_in_background], from the point where the awaited
    [run_in_executor] call is resumed: [awaited] is what that call does from
    the coroutine's point of view. *)
Definition process_in_background_from
    (awaited : App (string * pipeline_result)) (job_id : string) : App unit :=
  try_except
    (result_data ← awaited;
     let result := result_data.2 in
     job ← jobs_getitem job_id;
     _ ← match result with
         | Success m =>
             _ ← update_job job_id (set_status "completed");
             update_job job_id (set_results m)
         | Failure err =>
             _ ← update_job job_id (set_status "failed");
             update_job job_id (set_error err)
         end;
     save_jobs)
    (fun e =>
       _ ← jobs_setitem job_id (set_status "failed");
       _ ← jobs_setitem job_id (set_error (exn_str e));
       save_jobs).

(** The executor runs the task to its end before the coroutine resumes. *)
Definition process_in_background (h : host) (job_id video_path filter_type : string)
    : App unit :=
  process_in_background_from
    (on_disk (process_video_task h job_id video_path filter_type)) job_id.

(** ** DELETE /cleanup/{job_id} *)

Definition remove_if_exists (path : option string) : App unit :=
  match path with
  | None => mret tt
  | Some p =>
      ex ← on_disk (path_exists p);
      when ex (on_disk (os_remove p))
  end.

Definition cleanup_job (job_id : string) : App string :=
  st ← get_store;
  match jobs st !! job_id with
  | None => raise (HTTPException 404 "Job not found")
  | Some job =>
      _ ← remove_if_exists (Some (file_path job));
      _ ← remove_if_exists (j_output_path job);
      _ ← modify (fun st => set_jobs (delete job_id (jobs st)) st);
      _ ← save_jobs;
      mret "Job cleaned up successfully"
  end.

(** ** POST /upload *)

Definition MAX_FILE_SIZE : Z := 100 * 1024 * 1024.
Definition ALLOWED_EXTENSIONS : list string := [".mp4"].
Definition UPLOAD_DIR : string := "uploads".

Definition validate_video_file (filename : string) (file_size : Z) : App bool :=
  let ext := lower (splitext filename).2 in
  if negb (bool_decide (ext ∈ ALLOWED_EXTENSIONS))
  then raise (HTTPException 400
                ("Invalid file type. Only " +:+ str_join ", " ALLOWED_EXTENSIONS
                 +:+ " allowed"))
  else if (MAX_FILE_SIZE <? file_size)%Z
  then raise (HTTPException 400
                ("File too large. Maximum size is "
                 +:+ str_int (MAX_FILE_SIZE / (1024 * 1024)) +:+ "MB"))
  else mret true.

(** An uploaded file: its name, the length of its contents, and what
    those contents are once they are on disk. *)
Record UploadFile := mk_upload {
  u_filename : string;
  u_size : Z;
  u_contents : @file Frame
}.

Record upload_response := mk_upload_response {
  ur_job_id : string;
  ur_filename : string;
  ur_size : Z;
  ur_analytics : option analytics;
  ur_message : string
}.

(** [open(file_path, "wb")] then [f.write(contents)], for a path under
    [UPLOAD_DIR]: the code creates no directory below [UPLOAD_DIR], so a
    name with a separator in it has no directory to go to. *)
Definition write_upload (name : string) (contents : @file Frame) : App string :=
  let file_path := path_join UPLOAD_DIR name in
  if (0 <=? rfind "/"%char name)%Z
  then raise (FileNotFoundError file_path)
  else _ ← on_disk (modify (insert file_path contents)); mret file_path.

(** [uuid4] is the identifier that [uuid.uuid4()] draws. *)
Definition upload_video (uuid4 : string) (file : UploadFile) : App upload_response :=
  let file_size := u_size file in
  _ ← validate_video_file (u_filename file) file_size;
  let job_id := uuid4 in
  file_path ← write_upload (job_id +:+ "_" +:+ u_filename file) (u_contents file);
  analytics ← try_except
                (let processor := init file_path default_segment_duration in
                 a ← on_disk (get_video_analytics (Some file_size) processor);
                 mret (Some a))
                (fun e => mret None);
  _ ← modify (fun st => set_jobs (<[job_id := uploaded_job job_id (u_filename file) file_path]>
                                    (jobs st)) st);
  _ ← save_jobs;
  mret (mk_upload_response job_id (u_filename file) file_size analytics
                           "Video uploaded successfully").

(** ** GET /status/{job_id} *)

Record JobStatus := mk_status {
  s_job_id : string;
  s_status : string;
  s_progress : option Z;
  s_sequential_time : option Q;
  s_parallel_time : option Q;
  s_speedup : option Q;
  s_segments_processed : option Z;
  s_cpu_cores_used : option Z;
  s_output_filename : option string;
  s_error : option string
}.

Definition get_status (job_id : string) : App JobStatus :=
  st ← get_store;
  match jobs st !! job_id with
  | None =>
      raise (HTTPException 404
               ("Job not found. Please upload a video first. Job ID: " +:+ job_id))
  | Some job =>
      mret (mk_status job_id (status job) None
              (j_sequential_time job) (j_parallel_time job) (j_speedup job)
              (j_segments_processed job) (j_cpu_cores_used job)
              (output_filename job) (error job))
  end.

(** ** GET /download/{job_id} *)

(** [FileResponse(path, media_type=..., filename=...)] *)
Record FileResponse := mk_file_response {
  fr_path : string;
  fr_media_type : string;
  fr_filename : string
}.

Definition download_video (job_id : string) : App FileResponse :=
  st ← get_store;
  match jobs st !! job_id with
  | None => raise (HTTPException 404 "Job not found")
  | Some job =>
      if negb (String.eqb (status job) "completed")
      then raise (HTTPException 400
                    ("Video not ready. Current status: " +:+ status job))
      else
        let output_path := j_output_path job in
        ex ← match output_path with
             | None => mret false
             | Some p => if String.eqb p "" then mret false else on_disk (path_exists p)
             end;
        if negb ex then raise (HTTPException 404 "Output file not found") else
        match output_path, output_filename job with
        | Some p, Some name => mret (mk_file_response p "video/mp4" name)
        | _, _ => raise (KeyError "output_filename")
        end
  end.

End Service.
End main.

(** * Vocabulary of the statements *)

Import video_processor.
Local Open Scope list_scope.

(** Number of segments opened after [k] frames, [n] frames per segment. *)
Definition segments_after (n k : nat) : nat := ((k + n - 1) / n)%nat.

(** The [j]-th run of [n] consecutive elements of [l]. *)
Definition chunk {A} (n j : nat) (l : list A) : list A := take n (drop (j * n) l).

(** The video a writer opened with the given properties holds after
    [frames] have been written to it. *)
Definition written_video {Frame} (fps : Q) (width height : Z) (frames : list Frame)
    : @video Frame :=
  mk_video fps width height (Z.of_nat (length frames)) false frames.

(** The frames a capture of [path] decodes. *)
Definition frames_at {Frame} (fs : gmap string (@file Frame)) (path : string)
    : list Frame :=
  cap_frames (decode fs path).

(** Some encoder of the host opens for the given properties:
    'avc1', or else the fallback 'mp4v'. *)
Definition encoder_opens (h : host) (fps : Q) (width height : Z) : bool :=
  writer_opens h avc1 fps width height || writer_opens h mp4v fps width height.

Definition encoder_opens_for {Frame} (h : host) (fs : gmap string (@file Frame))
    (path : string) : bool :=
  let cap := decode fs path in
  encoder_opens h (cap_fps cap) (cap_width cap) (cap_height cap).

(** The result a worker writes for the segment at [seg]: the properties of
    its input, and each of its frames transformed. *)
Definition filtered_segment {Frame} `{!PixelTransforms Frame}
    (fs : gmap string (@file Frame)) (filter_type seg : string) : @video Frame :=
  let cap := decode fs seg in
  written_video (cap_fps cap) (cap_width cap) (cap_height cap)
                (get_filter_function filter_type <$> cap_frames cap).

(** The same host, with another order of completion in the pool. *)
Definition with_completion_order (h : host) (order : list nat) : host :=
  mk_host (cpu_count h) (measured_time h) (writer_opens h)
          (ffprobe h) (ffmpeg_extract h) (ffmpeg_remux h) order.

(** The merged video the pipeline is to produce from the segments at
    [segs]: the properties of the first, and the transformed frames of all
    of them, in index order. *)
Definition merged_video {Frame} `{!PixelTransforms Frame}
    (fs : gmap string (@file Frame)) (filter_type : string) (segs : list string)
    : option (@video Frame) :=
  match segs with
  | [] => None
  | first :: _ =>
      let cap := decode fs first in
      Some (written_video (cap_fps cap) (cap_width cap) (cap_height cap)
              (concat ((fun seg => get_filter_function filter_type <$> frames_at fs seg)
                         <$> segs)))
  end.

(** The call ended by raising. *)
Definition raises {A} (o : outcome A) : Prop := exists e, o = Raise e.

(** Python's [round(x)], the rounding that the specification names for the
    segment length where the code has [int(x)]. *)
Definition py_round (x : Q) : Z := round_half_even x.

(** Decoding a formatted index back: the left inverse by which formatted
    names are shown not to collide. *)
Definition parse_nat (s : string) : option nat :=
  Nat.of_uint <$> NilEmpty.uint_of_string s.

(** What holds of the loop variables of [split_video] and of the file
    system once the frames [pre] have been read, with [n] frames per
    segment: [fs0] is the file system the loop started from. *)
Record split_inv {Frame} (self : VideoProcessor) (fps : Q) (width height : Z) (n : nat)
    (fs0 : gmap string (@file Frame)) (pre : list Frame)
    (fs : gmap string (@file Frame)) (st : split_vars) : Prop := {
  inv_count : frame_count st = Z.of_nat (length pre);
  inv_current : current_segment st = segments_after n (length pre);
  inv_paths : segment_paths st
              = map (segment_path_of self) (seq 0 (segments_after n (length pre)));
  inv_out : (0 < length pre)%nat ->
            out st = Some (mk_writer (segment_path_of self (segments_after n (length pre) - 1))
                                     true);
  inv_files : forall j, (j < segments_after n (length pre))%nat ->
              fs !! segment_path_of self j
              = Some (FVideo (written_video fps width height (chunk n j pre)));
  inv_others : forall p, (forall j, p ≠ segment_path_of self j) -> fs !! p = fs0 !! p
}.

(** What holds while the pool is at work on the segments [segs]: paths
    other than the workers' outputs are as they were in [fs0], and every
    task filed as done has left the filtered form of its own segment under
    its own output path. *)
Record pool_inv {Frame} `{!PixelTransforms Frame} (self : VideoProcessor)
    (segs : list string) (filter_type : string) (fs0 : gmap string (@file Frame))
    (fs : gmap string (@file Frame)) (done : gmap nat string) : Prop := {
  pool_frame : forall p, (forall j, p ≠ par_path self j) -> fs !! p = fs0 !! p;
  pool_done : forall i r, done !! i = Some r ->
      r = par_path self i /\ exists seg, segs !! i = Some seg /\
      fs !! par_path self i = Some (FVideo (filtered_segment fs0 filter_type seg))
}.

(** * Concrete runs *)

(** Frames as numbers: a transform is visible as an offset. *)
#[export] Instance numbered_frames : PixelTransforms Z := {|
  apply_grayscale := fun x => (x + 1000);
  apply_blur := fun x => (x + 2000);
  apply_sepia := fun x => (x + 3000);
  apply_brightness := fun x => (x + 4000);
  apply_contrast := fun x => (x + 5000);
  apply_saturation := fun x => (x + 6000);
  apply_warm_tone := fun x => (x + 7000);
  apply_cool_tone := fun x => (x + 8000);
  apply_edge_detection := fun x => (x + 9000)
|}.

(** A host with four cores on which every encoder opens and every tool
    succeeds; the pool's tasks complete in the order 2, 0, 1. *)
Definition sample_host : host :=
  mk_host 4 (3 # 2) (fun _ _ _ _ => true) ExitZero ExitZero ExitZero [2; 0; 1]%nat.

(** The same host, on which the muxing ffmpeg call exits non-zero. *)
Definition remux_failing_host : host :=
  mk_host 4 (3 # 2) (fun _ _ _ _ => true) ExitZero ExitZero ExitNonZero [2; 0; 1]%nat.

(** A 25-second clip at 3 frames per second, with sound. *)
Definition sample_clip : @video Z :=
  mk_video 3 640 480 75 true (seqZ 0 75).

Definition sample_disk : gmap string (@file Z) :=
  {[ "uploads/job-1_clip.mp4" := FVideo sample_clip ]}.

(** A 300-frame clip at 29.97 frames per second. *)
Definition ntsc_clip : @video Z :=
  mk_video (2997 # 100) 640 480 300 false (seqZ 0 300).

Definition ntsc_disk : gmap string (@file Z) :=
  {[ "uploads/ntsc.mp4" := FVideo ntsc_clip ]}.

(** Three segments of two frames each, as [split_video] names them. *)
Definition three_segments : list string :=
  ["segments/segment_000.mp4"; "segments/segment_001.mp4"; "segments/segment_002.mp4"].

Definition three_segments_disk : gmap string (@file Z) :=
  {[ "segments/segment_000.mp4" := FVideo (written_video 3 640 480 [0; 1]);
     "segments/segment_001.mp4" := FVideo (written_video 3 640 480 [2; 3]);
     "segments/segment_002.mp4" := FVideo (written_video 3 640 480 [4; 5]) ]}.

(** Two filtered segments to merge, of which the second is not on disk. *)
Definition results_with_one_missing : list string :=
  ["outputs/par_processed_000.mp4"; "outputs/par_processed_001.mp4"].

Definition disk_with_one_missing : gmap string (@file Z) :=
  {[ "outputs/par_processed_000.mp4" := FVideo (written_video 3 640 480 [1000; 1001]) ]}.

(** The run of the whole pipeline on the sample clip. *)
Definition sample_run : gmap string (@file Z) * outcome pipeline_result :=
  process_video sample_host (init "uploads/job-1_clip.mp4" default_segment_duration)
    "grayscale" "job-1_processed.mp4" sample_disk.

Definition sample_metrics : metrics :=
  mk_metrics "outputs/job-1_processed.mp4" (round2 ((3 # 2) * 3)) (round2 (3 # 2))
             (round2 ((3 # 2) * 3 / (3 # 2))) 3 4 true.

Import main.

(** The service after one upload. *)
Definition sample_job : job :=
  uploaded_job "job-1" "clip.mp4" "uploads/job-1_clip.mp4".

Definition service_after_upload : @state Z :=
  mk_state {[ "job-1" := sample_job ]} (Holds {[ "job-1" := sample_job ]}) true
           sample_disk [].

(** The service with a finished job. *)
Definition finished_job : job :=
  set_results sample_metrics (set_filter_type "grayscale" (set_status "completed" sample_job)).

Definition service_after_completion : @state Z :=
  mk_state {[ "job-1" := finished_job ]} (Holds {[ "job-1" := finished_job ]}) true
           (<[ "outputs/job-1_processed.mp4" := FVideo (written_video 3 640 480 [1000; 1001]) ]>
              sample_disk)
           [].

(** A service that starts on a jobs file that does not parse. *)
Definition service_with_corrupt_file : @state Z :=
  mk_state ∅ Unparseable true ∅ [].

(** A job deleted while its run is in flight: the job is submitted, the
    executor runs the task to its end, the job is cleaned up, and only then
    is the coroutine resumed with the task's result. *)
Definition submitted : @state Z * outcome (string * string * string) :=
  start_processing (mk_request "job-1" "grayscale") service_after_upload.

Definition executor_run : gmap string (@file Z) * outcome (string * pipeline_result) :=
  process_video_task sample_host "job-1" "uploads/job-1_clip.mp4" "grayscale"
                     (disk submitted.1).

Definition cleaned_up : @state Z * outcome string :=
  cleanup_job "job-1" (set_disk executor_run.1 submitted.1).

Definition resumed_after_cleanup : @state Z * outcome unit :=
  process_in_background_from (fun st => (st, executor_run.2)) "job-1" cleaned_up.1.

(** * Further vocabulary and runs *)

(** Whether the source is found to hold sound that can be extracted:
    [ffprobe] and the extracting [ffmpeg] both exit with zero on a video
    that has an audio stream. *)
Definition audio_extractable {Frame} (h : host) (fs : gmap string (@file Frame))
    (video_path : string) : bool :=
  match ffprobe h, fs !! video_path, ffmpeg_extract h with
  | ExitZero, Some (FVideo v), ExitZero => v_audio v
  | _, _, _ => false
  end.

(** What [save_jobs] leaves: the table in the file when the file can be
    written, and nothing new when it cannot. *)
Definition saved {Frame} (st : @state Frame) : @state Frame :=
  if jobs_file_writable st then set_jobs_file (Holds (jobs st)) st else st.

(** The job record after a run: the branch of [process_in_background]
    taken for [result]. *)
Definition recorded (result : pipeline_result) (j : job) : job :=
  match result with
  | Success m => set_results m (set_status "completed" j)
  | Failure err => set_error err (set_status "failed" j)
  end.

(** A host on which only the fallback encoder opens. *)
Definition mp4v_only_host : host :=
  mk_host 4 (3 # 2)
          (fun codec _ _ _ => match codec with avc1 => false | mp4v => true end)
          ExitZero ExitZero ExitZero [2; 0; 1]%nat.

(** A file that opens as a video and holds no frame. *)
Definition blank_clip : @video Z := mk_video 3 640 480 0 false [].

Definition blank_disk : gmap string (@file Z) :=
  {[ "uploads/blank.mp4" := FVideo blank_clip ]}.

(** The service before any upload, and the upload of the sample clip. *)
Definition empty_service : @state Z := mk_state ∅ NoFile true ∅ [].

Definition sample_upload : @UploadFile Z :=
  mk_upload "clip.mp4" 2048 (FVideo sample_clip).

(** * Properties *)



(** ** Formatted names do not collide *)

Lemma parse_str_nat n : parse_nat (str_nat n) = Some n.
Proof.
  unfold parse_nat, str_nat. rewrite NilEmpty.usu. simpl.
  f_equal. apply Unsigned.of_to.
Qed.

Lemma parse_zeros k s : parse_nat (zeros k +:+ s) = parse_nat s.
Proof.
  induction k as [|k IH]; [reflexivity|].
  rewrite <- IH. unfold parse_nat. simpl.
  destruct (NilEmpty.uint_of_string (zeros k +:+ s)) as [d|]; reflexivity.
Qed.

Lemma parse_fmt03 n : parse_nat (fmt03 n) = Some n.
Proof. unfold fmt03. rewrite parse_zeros. apply parse_str_nat. Qed.

Lemma fmt03_inj i j : fmt03 i = fmt03 j -> i = j.
Proof.
  intros H. apply (f_equal parse_nat) in H.
  rewrite !parse_fmt03 in H. congruence.
Qed.

Lemma string_app_inv_tail (s1 s2 t : string) : s1 +:+ t = s2 +:+ t -> s1 = s2.
Proof.
  intros H. apply (f_equal String.list_ascii_of_string) in H.
  assert (Happ : forall a b, String.list_ascii_of_string (a +:+ b)
            = (String.list_ascii_of_string a ++ String.list_ascii_of_string b)%list).
  { intros a b. induction a as [|c a IH]; simpl; [reflexivity|]. now rewrite IH. }
  rewrite !Happ in H. apply app_inv_tail in H.
  apply (f_equal String.string_of_list_ascii) in H.
  now rewrite !String.string_of_list_ascii_of_string in H.
Qed.

Lemma segment_path_of_init vp d i :
  segment_path_of (init vp d) i = "segments/segment_" +:+ fmt03 i +:+ ".mp4".
Proof. reflexivity. Qed.

Lemma par_path_init vp d i :
  par_path (init vp d) i = "outputs/par_processed_" +:+ fmt03 i +:+ ".mp4".
Proof. reflexivity. Qed.

Lemma segment_path_of_inj vp d i j :
  segment_path_of (init vp d) i = segment_path_of (init vp d) j -> i = j.
Proof.
  rewrite !segment_path_of_init. intros H.
  apply (inj (String.app _)) in H.
  apply string_app_inv_tail in H. by apply fmt03_inj.
Qed.

Lemma par_path_inj vp d i j :
  par_path (init vp d) i = par_path (init vp d) j -> i = j.
Proof.
  rewrite !par_path_init. intros H.
  apply (inj (String.app _)) in H.
  apply string_app_inv_tail in H. by apply fmt03_inj.
Qed.

Lemma segment_path_not_par vp d i j :
  segment_path_of (init vp d) i ≠ par_path (init vp d) j.
Proof. rewrite segment_path_of_init, par_path_init. discriminate. Qed.

(** ** Arithmetic of segment counts *)


Lemma segments_after_boundary n k :
  (0 < n)%nat -> (k mod n = 0)%nat ->
  segments_after n k = (k / n)%nat /\ segments_after n (S k) = S (k / n).
Proof.
  intros Hn Hk. unfold segments_after.
  pose proof (Nat.div_mod_eq k n) as E. rewrite Hk in E.
  split.
  - symmetry. apply (Nat.div_unique _ _ _ (n - 1)%nat); lia.
  - symmetry. apply (Nat.div_unique _ _ _ 0%nat); lia.
Qed.

Lemma segments_after_inside n k :
  (0 < n)%nat -> (k mod n ≠ 0)%nat ->
  segments_after n k = S (k / n) /\ segments_after n (S k) = S (k / n).
Proof.
  intros Hn Hk. unfold segments_after.
  pose proof (Nat.div_mod_eq k n) as E.
  pose proof (Nat.mod_upper_bound k n ltac:(lia)) as B.
  split.
  - symmetry. apply (Nat.div_unique _ _ _ (k mod n - 1)%nat); lia.
  - symmetry. apply (Nat.div_unique _ _ _ (k mod n)%nat); lia.
Qed.

Lemma segments_after_cover n k : (0 < n)%nat -> (k <= segments_after n k * n)%nat.
Proof.
  intros Hn. unfold segments_after.
  pose proof (Nat.div_mod_eq (k + n - 1) n) as E.
  pose proof (Nat.mod_upper_bound (k + n - 1) n ltac:(lia)) as B.
  nia.
Qed.

Lemma segments_after_tight n k :
  (0 < n)%nat -> (0 < k)%nat -> ((segments_after n k - 1) * n < k)%nat.
Proof.
  intros Hn Hk. unfold segments_after.
  pose proof (Nat.div_mod_eq (k + n - 1) n) as E.
  pose proof (Nat.mod_upper_bound (k + n - 1) n ltac:(lia)) as B.
  nia.
Qed.

Lemma segments_after_0 n : (0 < n)%nat -> segments_after n 0 = 0%nat.
Proof.
  intros Hn. unfold segments_after. apply Nat.div_small. lia.
Qed.

(** [ceil(F / L)], computed as the code does, is [segments_after]. *)
Lemma Qceiling_segments (n k : nat) :
  (0 < n)%nat ->
  Qceiling (inject_Z (Z.of_nat k) / inject_Z (Z.of_nat n)) = Z.of_nat (segments_after n k).
Proof.
  intros Hn. unfold Qceiling.
  assert (E : (- (inject_Z (Z.of_nat k) / inject_Z (Z.of_nat n)) ==
               inject_Z (- Z.of_nat k) / inject_Z (Z.of_nat n))%Q).
  { rewrite inject_Z_opp. field. intros H.
    unfold Qeq in H; simpl in H; lia. }
  rewrite E, <- Zdiv_Qdiv.
  unfold segments_after.
  rewrite Nat2Z.inj_div, Nat2Z.inj_sub, Nat2Z.inj_add by lia.
  set (K := Z.of_nat k). set (N := Z.of_nat n).
  assert (HN : 0 < N) by (subst N; lia).
  assert (HK : 0 <= K) by (subst K; lia).
  pose proof (Z.div_mod (-K) N ltac:(lia)) as E1.
  pose proof (Z.mod_pos_bound (-K) N HN) as B1.
  change (Z.of_nat 1) with 1.
  apply (Z.div_unique _ _ _ (N - 1 - (-K) mod N)); [lia|].
  nia.
Qed.

(** Unfolding the monad on the goal. *)
Ltac mrun :=
  repeat (progress (unfold mbind, M_bind, mret, M_ret, raise, no_return, modify,
                    get_store, when, try_except, zoom; simpl)).

(** ** Chunks of a list *)

Lemma chunk_snoc_closed {A} n j (l : list A) x :
  ((j + 1) * n <= length l)%nat -> chunk n j (l ++ [x]) = chunk n j l.
Proof.
  intros H. unfold chunk.
  rewrite drop_app_le by lia.
  apply take_app_le. rewrite length_drop. lia.
Qed.

Lemma chunk_snoc_open {A} n j (l : list A) x :
  (j * n <= length l)%nat -> (length l < (j + 1) * n)%nat ->
  chunk n j (l ++ [x]) = chunk n j l ++ [x].
Proof.
  intros H1 H2. unfold chunk.
  rewrite drop_app_le by lia.
  rewrite (take_ge (drop (j * n) l)) by (rewrite length_drop; lia).
  apply take_ge. rewrite length_app, length_drop. simpl. lia.
Qed.

Lemma chunk_snoc_new {A} n j (l : list A) x :
  (0 < n)%nat -> (j * n = length l)%nat -> chunk n j (l ++ [x]) = [x].
Proof.
  intros Hn H. unfold chunk. rewrite H, drop_app_length.
  apply take_ge. simpl. lia.
Qed.

Lemma concat_chunks {A} n m (l : list A) :
  concat (map (fun j => chunk n j l) (seq 0 m)) = take (m * n) l.
Proof.
  induction m as [|m IH]; [reflexivity|].
  rewrite seq_S, map_app, concat_app, IH. simpl.
  rewrite app_nil_r. unfold chunk.
  rewrite take_take_drop. f_equal. lia.
Qed.

Lemma length_chunk {A} n j (l : list A) :
  length (chunk n j l) = Nat.min n (length l - j * n).
Proof. unfold chunk. by rewrite length_take, length_drop. Qed.

(** ** The segmenter *)

Section Segmenter.

Context {Frame : Type}.
Variables (h : host) (vp : string) (d : Q).
Variables (fps : Q) (width height : Z).
Variable n : nat.
Hypothesis n_pos : (0 < n)%nat.
Hypothesis encoder : writer_opens h avc1 fps width height = true.

Let self := init vp d.
Let seg := segment_path_of self.

Local Abbreviation inv := (split_inv (Frame:=Frame) self fps width height n).

Lemma split_inv_init fs0 : inv fs0 [] fs0 (mk_split 0 0 None []).
Proof.
  constructor; simpl; rewrite ?segments_after_0 by done; try done; lia.
Qed.

Lemma split_body_step fs0 pre fs st frame :
  inv fs0 pre fs st ->
  exists fs' st',
    split_body h self fps width height (Z.of_nat n) frame st fs = (fs', Ok st')
    /\ inv fs0 (pre ++ [frame]) fs' st'.
Proof.
  intros [Hc Hcur Hp Ho Hf Hoth].
  unfold split_body.
  rewrite Hc, <- Nat2Z.inj_mod.
  destruct (Z.of_nat (length pre `mod` n) =? 0) eqn:Hm.
  - apply Z.eqb_eq in Hm.
    assert (Hm' : (length pre mod n = 0)%nat) by lia.
    destruct (segments_after_boundary n (length pre) n_pos Hm') as [E1 E2].
    pose proof (Nat.div_mod_eq (length pre) n) as Ediv. rewrite Hm' in Ediv.
    unfold VideoWriter. rewrite encoder. mrun.
    eexists _, _. split; [reflexivity|].
    constructor; simpl; rewrite ?length_app; simpl;
      replace (length pre + 1)%nat with (S (length pre)) by lia; rewrite ?E2.
    + rewrite ?Hc. lia.
    + rewrite Hcur, E1. done.
    + rewrite Hp, Hcur, E1, seq_S, map_app. done.
    + intros _. rewrite Hcur, E1. do 3 f_equal. lia.
    + intros j Hj. rewrite Hcur, E1.
      destruct (decide (j = (length pre / n)%nat)) as [->|Hne].
      * rewrite lookup_alter_eq, lookup_insert_eq. simpl.
        rewrite chunk_snoc_new by lia. done.
      * assert (seg (length pre / n) ≠ seg j).
        { intros E. apply segment_path_of_inj in E. lia. }
        rewrite lookup_alter_ne, lookup_insert_ne by done.
        rewrite chunk_snoc_closed by nia.
        apply Hf. rewrite E1. lia.
    + intros p Hpj. rewrite Hcur.
      rewrite lookup_alter_ne, lookup_insert_ne by (apply not_eq_sym, Hpj).
      by apply Hoth.
  - apply Z.eqb_neq in Hm.
    assert (Hm' : (length pre mod n ≠ 0)%nat) by lia.
    destruct (segments_after_inside n (length pre) n_pos Hm') as [E1 E2].
    pose proof (Nat.div_mod_eq (length pre) n) as Ediv.
    pose proof (Nat.mod_upper_bound (length pre) n ltac:(lia)) as Bmod.
    assert (Hlen : (0 < length pre)%nat).
    { destruct (length pre); [|lia]. rewrite Nat.Div0.mod_0_l in Hm'. done. }
    mrun. rewrite (Ho Hlen). mrun.
    eexists _, _. split; [reflexivity|].
    constructor; simpl; rewrite ?length_app; simpl;
      replace (length pre + 1)%nat with (S (length pre)) by lia; rewrite ?E2.
    + rewrite ?Hc. lia.
    + rewrite Hcur, E1. done.
    + rewrite Hp, E1. done.
    + intros _. rewrite E1. done.
    + intros j Hj. rewrite E1. simpl. rewrite Nat.sub_0_r.
      destruct (decide (j = (length pre / n)%nat)) as [->|Hne].
      * rewrite lookup_alter_eq, Hf by lia. simpl.
        rewrite chunk_snoc_open by nia.
        unfold written_video. rewrite length_app. simpl.
        do 3 f_equal. lia.
      * assert (seg (length pre / n) ≠ seg j).
        { intros E. apply segment_path_of_inj in E. lia. }
        rewrite lookup_alter_ne by done.
        rewrite chunk_snoc_closed by nia.
        apply Hf. lia.
    + intros p Hpj. rewrite E1. simpl.
      rewrite lookup_alter_ne by (apply not_eq_sym, Hpj).
      by apply Hoth.
Qed.

Lemma split_loop_inv fs0 frames : forall pre fs st,
  inv fs0 pre fs st ->
  exists fs' st',
    split_loop h self fps width height (Z.of_nat n) frames st fs = (fs', Ok st')
    /\ inv fs0 (pre ++ frames) fs' st'.
Proof.
  induction frames as [|frame rest IH]; intros pre fs st Hinv.
  - exists fs, st. rewrite app_nil_r. done.
  - destruct (split_body_step fs0 pre fs st frame Hinv) as (fs1 & st1 & E1 & Hinv1).
    destruct (IH _ _ _ Hinv1) as (fs2 & st2 & E2 & Hinv2).
    exists fs2, st2. split.
    + simpl. unfold mbind, M_bind. rewrite E1. exact E2.
    + by rewrite <- app_assoc in Hinv2.
Qed.

End Segmenter.

Lemma length_concat_sum {A} (ls : list (list A)) :
  length (concat ls) = sum_list (map length ls).
Proof.
  induction ls as [|l ls IH]; [reflexivity|].
  simpl. by rewrite length_app, IH.
Qed.

Lemma py_int_nonzero (x y : Q) : 1 <= py_int (x * y) -> Qeq_bool x 0 = false.
Proof.
  intros H. destruct (Qeq_bool x 0) eqn:E; [|done].
  apply Qeq_bool_eq in E. unfold Qeq in E. simpl in E.
  assert (E0 : Qnum x = 0) by lia.
  unfold py_int in H. simpl in H. rewrite E0 in H. simpl in H.
  rewrite Z.quot_0_l in H; lia.
Qed.

Lemma inject_Z_nonzero (z : Z) : 1 <= z -> Qeq_bool (inject_Z z) 0 = false.
Proof.
  intros H. destruct (Qeq_bool (inject_Z z) 0) eqn:E; [|done].
  apply Qeq_bool_eq in E. unfold Qeq in E. simpl in E. lia.
Qed.

Lemma frames_at_written {Frame} (fs : gmap string (@file Frame)) p fps w hh frames :
  fs !! p = Some (FVideo (written_video fps w hh frames)) ->
  frames_at fs p = frames.
Proof. intros H. unfold frames_at, decode. by rewrite H. Qed.

(** C3, as the code has it: the segment length is [int(fps * duration)],
    truncated, not rounded.  For a readable source whose decoder yields [F]
    frames, with a segment length [L >= 1] and an encoder that opens,
    [split_video] returns [ceil(F / L)] segment files; read back in index
    order they give exactly the source frames, their frame counts sum to
    [F], every segment but the last holds [L] frames, and the last holds
    [F mod L] frames, or [L] when [L] divides [F]. *)
Theorem split_video_segments {Frame} (h : host) (vp : string) (d : Q)
    (fs : gmap string (@file Frame)) (v : video) :
  fs !! vp = Some (FVideo v) ->
  writer_opens h avc1 (v_fps v) (v_width v) (v_height v) = true ->
  1 <= py_int (v_fps v * d) ->
  let L := frames_per_segment_of (v_fps v) (init vp d) in
  let F := Z.of_nat (length (v_frames v)) in
  exists fs' paths,
    split_video h (init vp d) fs = (fs', Ok paths)
    /\ L = py_int (v_fps v * d)
    /\ Z.of_nat (length paths) = Qceiling (inject_Z F / inject_Z L)
    /\ concat (map (frames_at fs') paths) = v_frames v
    /\ sum_list (map (fun p => length (frames_at fs' p)) paths) = length (v_frames v)
    /\ (forall i p, paths !! i = Some p -> (S i < length paths)%nat ->
          Z.of_nat (length (frames_at fs' p)) = L)
    /\ (forall p, last paths = Some p ->
          Z.of_nat (length (frames_at fs' p)) = if F mod L =? 0 then L else F mod L).
Proof.
  intros Hv Henc HL L F.
  assert (EL : L = py_int (v_fps v * d)) by reflexivity.
  set (n := Z.to_nat L).
  assert (Hn : (0 < n)%nat) by (subst n; lia).
  assert (ELn : L = Z.of_nat n) by (subst n; lia).
  destruct (split_loop_inv h vp d (v_fps v) (v_width v) (v_height v) n Hn Henc
              fs (v_frames v) [] fs (mk_split 0 0 None [])
              (split_inv_init vp d (v_fps v) (v_width v) (v_height v) n Hn fs))
    as (fs' & st' & Eloop & Hinv).
  simpl in Hinv. destruct Hinv as [_ _ Hp _ Hf _].
  set (m := segments_after n (length (v_frames v))) in *.
  assert (Hat : forall j, (j < m)%nat ->
            frames_at fs' (segment_path_of (init vp d) j) = chunk n j (v_frames v)).
  { intros j Hj. eapply frames_at_written, Hf, Hj. }
  exists fs', (segment_paths st').
  split; [|split; [done|]].
  { unfold split_video, VideoCapture. mrun. unfold decode. rewrite Hv. simpl.
    unfold py_truediv. rewrite (py_int_nonzero _ _ HL). mrun.
    unfold segment_count_of, py_truediv. mrun.
    fold L. rewrite (inject_Z_nonzero L) by (rewrite EL; lia). mrun.
    rewrite ELn, Eloop. done. }
  assert (Hmap : map (frames_at fs') (segment_paths st')
                 = map (fun j => chunk n j (v_frames v)) (seq 0 m)).
  { rewrite Hp, map_map. apply map_ext_in. intros j Hj.
    apply in_seq in Hj. apply Hat. lia. }
  pose proof (segments_after_cover n (length (v_frames v)) Hn) as Hcov. fold m in Hcov.
  assert (Hconcat : concat (map (frames_at fs') (segment_paths st')) = v_frames v).
  { rewrite Hmap, concat_chunks. apply take_ge. lia. }
  split; [|split; [done|split; [|split]]].
  - rewrite Hp, length_map, length_seq. unfold F. rewrite ELn.
    by rewrite Qceiling_segments.
  - transitivity (length (concat (map (frames_at fs') (segment_paths st'))));
      [|by rewrite Hconcat].
    rewrite length_concat_sum, map_map. done.
  - intros i p Hi Hlt. rewrite Hp, length_map, length_seq in Hlt.
    rewrite Hp in Hi.
    change (map ?f ?l) with (f <$> l) in Hi.
    apply list_lookup_fmap_Some in Hi as (j & -> & Hj).
    apply lookup_seq in Hj as [-> _]. simpl.
    rewrite Hat by lia. rewrite length_chunk.
    assert (Htight : ((m - 1) * n < length (v_frames v))%nat).
    { apply segments_after_tight; [done|]. destruct (length (v_frames v)); [|lia].
      unfold m in Hlt. rewrite segments_after_0 in Hlt by done. lia. }
    nia.
  - intros p Hlast. rewrite Hp in Hlast.
    change (map ?f ?l) with (f <$> l) in Hlast. rewrite fmap_last in Hlast.
    rewrite last_lookup, length_seq in Hlast.
    destruct (seq 0 m !! pred m) as [j|] eqn:Hj; [|done].
    apply lookup_seq in Hj as [-> Hm]. simpl in Hlast. injection Hlast as <-.
    rewrite Hat by lia. rewrite length_chunk.
    assert (Hpos : (0 < length (v_frames v))%nat).
    { destruct (Nat.eq_dec (length (v_frames v)) 0%nat) as [E|]; [|lia].
      exfalso. unfold m in Hm. rewrite E, segments_after_0 in Hm by done. lia. }
    pose proof (segments_after_tight n _ Hn Hpos) as Htight. fold m in Htight.
    unfold F. rewrite ELn, <- Nat2Z.inj_mod.
    pose proof (Nat.div_mod_eq (length (v_frames v)) n) as Ediv.
    pose proof (Nat.mod_upper_bound (length (v_frames v)) n ltac:(lia)) as Bmod.
    destruct (Z.of_nat (length (v_frames v) `mod` n) =? 0) eqn:Hmod.
    + apply Z.eqb_eq in Hmod.
      assert (Hm0 : (length (v_frames v) mod n = 0)%nat) by lia.
      destruct (segments_after_boundary n _ Hn Hm0) as [E1 _]. fold m in E1.
      rewrite Hm0 in Ediv. nia.
    + apply Z.eqb_neq in Hmod.
      assert (Hm0 : (length (v_frames v) mod n ≠ 0)%nat) by lia.
      destruct (segments_after_inside n _ Hn Hm0) as [E1 _]. fold m in E1.
      nia.
Qed.

(** ** Writers *)

Section Writers.

Context {Frame : Type} `{!PixelTransforms Frame}.
Implicit Types fs : gmap string (@file Frame).

Lemma alter_lookup_insert fs p (f : @file Frame -> @file Frame) x :
  fs !! p = Some x -> alter f p fs = <[p := f x]> fs.
Proof.
  intros H. apply map_eq. intros q.
  destruct (decide (p = q)) as [->|Hne].
  - by rewrite lookup_alter_eq, lookup_insert_eq, H.
  - by rewrite lookup_alter_ne, lookup_insert_ne.
Qed.

Lemma write_transformed (g : Frame -> Frame) p frames : forall fs fps w hh acc,
  fs !! p = Some (FVideo (written_video fps w hh acc)) ->
  for_each frames (fun frame => writer_write (mk_writer p true) (g frame)) fs
  = (<[p := FVideo (written_video fps w hh (acc ++ (g <$> frames)))]> fs, Ok tt).
Proof.
  induction frames as [|frame rest IH]; intros fs fps w hh acc Hp.
  - simpl. rewrite app_nil_r. mrun. by rewrite insert_id.
  - simpl. mrun.
    rewrite (alter_lookup_insert _ _ _ _ Hp). simpl.
    rewrite (IH _ fps w hh (acc ++ [g frame])).
    + rewrite insert_insert_eq, <- app_assoc. done.
    + rewrite lookup_insert_eq. unfold written_video.
      rewrite length_app. simpl. do 3 f_equal. lia.
Qed.

Lemma write_closed (g : Frame -> Frame) p frames fs :
  for_each frames (fun frame => writer_write (mk_writer p false) (g frame)) fs
  = (fs, Ok tt).
Proof. revert fs. induction frames as [|frame rest IH]; intros fs; [done|]. apply IH. Qed.

Lemma VideoWriter_with_fallback_spec h p fps w hh fs :
  VideoWriter_with_fallback h p fps w hh fs =
  if encoder_opens h fps w hh
  then (<[p := FVideo (written_video fps w hh [])]> fs, Ok (mk_writer p true))
  else (fs, Ok (mk_writer p false)).
Proof.
  unfold VideoWriter_with_fallback, VideoWriter, encoder_opens.
  destruct (writer_opens h avc1 fps w hh); mrun; [done|].
  destruct (writer_opens h mp4v fps w hh); mrun; done.
Qed.

(** The worker, in closed form. *)
Lemma apply_filter_to_segment_spec h seg filter_type outp idx fs :
  apply_filter_to_segment h (seg, filter_type, outp, idx) fs =
  (if encoder_opens_for h fs seg
   then <[outp := FVideo (filtered_segment fs filter_type seg)]> fs
   else fs,
   Ok outp).
Proof.
  unfold apply_filter_to_segment, VideoCapture. mrun.
  rewrite VideoWriter_with_fallback_spec. unfold encoder_opens_for.
  destruct (encoder_opens h _ _ _).
  - rewrite (write_transformed _ outp _ _ _ _ _ []) by apply lookup_insert_eq.
    rewrite insert_insert_eq. done.
  - rewrite write_closed. done.
Qed.

End Writers.

(** ** The pool *)

Arguments apply_filter_to_segment : simpl never.

Section Pool.

Context {Frame : Type} `{!PixelTransforms Frame}.
Implicit Types fs : gmap string (@file Frame).

Variables (h : host) (vp : string) (d : Q).
Variables (segs : list string) (filter_type : string).
Variable fs0 : gmap string (@file Frame).

Let self := init vp d.
Let par := par_path self.
Let args := args_list_of self segs filter_type.

Hypothesis segs_apart : forall seg j, seg ∈ segs -> seg ≠ par j.
Hypothesis encoders : forall seg, seg ∈ segs -> encoder_opens_for h fs0 seg = true.

Local Abbreviation inv := (pool_inv self segs filter_type fs0).

Lemma args_lookup i :
  args !! i = (fun seg => (seg, filter_type, par i, S i)) <$> segs !! i.
Proof. unfold args, args_list_of. by rewrite list_lookup_imap. Qed.

Lemma decode_frame fs seg :
  (forall p, (forall j, p ≠ par j) -> fs !! p = fs0 !! p) ->
  seg ∈ segs -> decode fs seg = decode fs0 seg.
Proof.
  intros Hfr Hin. unfold decode. rewrite Hfr; [done|].
  intros j. by apply segs_apart.
Qed.

Lemma pool_run_inv order : forall fs done,
  inv fs done ->
  exists fs' done',
    pool_run (apply_filter_to_segment h) args order done fs = (fs', Ok done')
    /\ inv fs' done'
    /\ (forall i, is_Some (done !! i) -> is_Some (done' !! i))
    /\ (forall i, i ∈ order -> (i < length segs)%nat -> is_Some (done' !! i)).
Proof.
  induction order as [|i later IH]; intros fs done Hinv.
  - exists fs, done. split; [done|]. split; [done|]. split; [done|].
    intros i Hi. by apply elem_of_nil in Hi.
  - simpl. rewrite args_lookup.
    destruct (segs !! i) as [seg|] eqn:Hseg; simpl.
    + assert (Hin : seg ∈ segs) by (eapply list_elem_of_lookup_2; eauto).
      unfold mbind, M_bind. rewrite apply_filter_to_segment_spec.
      unfold encoder_opens_for, filtered_segment.
      rewrite (decode_frame fs seg (pool_frame _ _ _ _ _ _ Hinv) Hin).
      fold (encoder_opens_for h fs0 seg). rewrite (encoders seg Hin).
      fold (filtered_segment fs0 filter_type seg).
      destruct (IH (<[par i := FVideo (filtered_segment fs0 filter_type seg)]> fs)
                   (<[i := par i]> done)) as (fs' & done' & E & Hinv' & Hmono & Hcov).
      { constructor.
        - intros p Hp. rewrite lookup_insert_ne by (apply not_eq_sym, Hp).
          by apply (pool_frame _ _ _ _ _ _ Hinv).
        - intros k r Hk. destruct (decide (i = k)) as [->|Hne].
          + rewrite lookup_insert_eq in Hk. injection Hk as <-.
            split; [done|]. exists seg. split; [done|]. apply lookup_insert_eq.
          + rewrite lookup_insert_ne in Hk by done.
            destruct (pool_done _ _ _ _ _ _ Hinv k r Hk) as (-> & seg' & Hs & Hf).
            split; [done|]. exists seg'. split; [done|].
            rewrite lookup_insert_ne; [done|].
            intros E. apply par_path_inj in E. done. }
      exists fs', done'. split; [exact E|]. split; [exact Hinv'|]. split.
      * intros k Hk. apply Hmono. destruct (decide (i = k)) as [->|Hne].
        -- rewrite lookup_insert_eq. eauto.
        -- by rewrite lookup_insert_ne.
      * intros k Hk Hlt. apply elem_of_cons in Hk as [->|Hk].
        -- apply Hmono. rewrite lookup_insert_eq. eauto.
        -- by apply Hcov.
    + destruct (IH fs done Hinv) as (fs' & done' & E & Hinv' & Hmono & Hcov).
      exists fs', done'. split; [exact E|]. split; [exact Hinv'|]. split; [exact Hmono|].
      intros k Hk Hlt. apply elem_of_cons in Hk as [->|Hk].
      * apply lookup_ge_None in Hseg. lia.
      * by apply Hcov.
Qed.

Lemma pool_collect_all (done : gmap nat string) indices fs :
  (forall i, i ∈ indices -> done !! i = Some (par i)) ->
  pool_collect done indices fs = (fs, Ok (par <$> indices)).
Proof.
  induction indices as [|i rest IH]; intros Hall; [done|].
  simpl. rewrite (Hall i) by apply list_elem_of_here.
  mrun. rewrite IH; [done|].
  intros k Hk. apply Hall. by apply list_elem_of_further.
Qed.

(** [process_parallel], for any order of completion that lets every task
    complete: the paths come back in index order, and each names the
    filtered form of the segment of the same index. *)
Lemma process_parallel_spec :
  1 <= cpu_count h ->
  completion_order h ≡ₚ seq 0 (length segs) ->
  exists fs1,
    process_parallel h self segs filter_type fs0
      = (fs1, Ok (par <$> seq 0 (length segs), measured_time h))
    /\ (forall p, (forall j, p ≠ par j) -> fs1 !! p = fs0 !! p)
    /\ (forall i seg, segs !! i = Some seg ->
          fs1 !! par i = Some (FVideo (filtered_segment fs0 filter_type seg))).
Proof.
  intros Hcpu Hperm.
  destruct (pool_run_inv (completion_order h) fs0 ∅) as (fs1 & done & E & Hinv & _ & Hcov).
  { constructor; [done|]. intros i r Hi. by rewrite lookup_empty in Hi. }
  assert (Hall : forall i, (i < length segs)%nat -> done !! i = Some (par i)).
  { intros i Hi. destruct (Hcov i) as [r Hr]; [|done|].
    - rewrite Hperm. apply elem_of_seq. lia.
    - destruct (pool_done _ _ _ _ _ _ Hinv i r Hr) as [-> _]. done. }
  exists fs1. split; [|split].
  - unfold process_parallel.
    destruct (cpu_count h <? 1) eqn:Hc; [apply Z.ltb_lt in Hc; lia|].
    unfold pool_map. mrun. fold self. fold args. rewrite E.
    unfold args, args_list_of. rewrite length_imap.
    rewrite pool_collect_all; [done|].
    intros i Hi. apply Hall. apply elem_of_seq in Hi. lia.
  - apply (pool_frame _ _ _ _ _ _ Hinv).
  - intros i seg Hseg.
    assert (Hi : (i < length segs)%nat) by (eapply lookup_lt_Some; eauto).
    destruct (pool_done _ _ _ _ _ _ Hinv i _ (Hall i Hi)) as (_ & seg' & Hs & Hf).
    by simplify_eq.
Qed.

End Pool.

(** ** The merger *)

Arguments merge_segments : simpl never.
Arguments process_parallel : simpl never.

Section Merger.

Context {Frame : Type} `{!PixelTransforms Frame}.
Implicit Types fs : gmap string (@file Frame).

Lemma write_plain p (frames : list Frame) fs fps w hh acc :
  fs !! p = Some (FVideo (written_video fps w hh acc)) ->
  for_each frames (fun frame => writer_write (mk_writer p true) frame) fs
  = (<[p := FVideo (written_video fps w hh (acc ++ frames))]> fs, Ok tt).
Proof.
  intros Hp.
  pose proof (write_transformed (fun x => x) p frames fs fps w hh acc Hp) as H.
  by rewrite list_fmap_id in H.
Qed.

Lemma bind_Ok {S A B} (m : M S A) (k : A -> M S B) s s' a :
  m s = (s', Ok a) -> (m ≫= k) s = k a s'.
Proof. intros E. unfold mbind, M_bind. by rewrite E. Qed.

Lemma VideoCapture_run p fs : VideoCapture p fs = (fs, Ok (decode fs p)).
Proof. reflexivity. Qed.

Lemma merge_loop_open outp fps w hh fs paths : forall acc,
  outp ∉ paths ->
  for_each paths
    (fun segment_path =>
       cap ← VideoCapture segment_path;
       for_each (cap_frames cap) (fun frame => writer_write (mk_writer outp true) frame))
    (<[outp := FVideo (written_video fps w hh acc)]> fs)
  = (<[outp := FVideo (written_video fps w hh (acc ++ concat (frames_at fs <$> paths)))]> fs,
     Ok tt).
Proof.
  induction paths as [|p rest IH]; intros acc Hnot.
  - simpl. rewrite app_nil_r. done.
  - apply not_elem_of_cons in Hnot as [Hne Hrest].
    simpl. unfold VideoCapture. mrun.
    assert (Hdec : decode (<[outp := FVideo (written_video fps w hh acc)]> fs) p = decode fs p).
    { unfold decode. by rewrite lookup_insert_ne. }
    rewrite Hdec.
    rewrite (write_plain outp _ _ fps w hh acc) by apply lookup_insert_eq.
    rewrite insert_insert_eq.
    rewrite (IH _ Hrest). unfold frames_at. by rewrite <- app_assoc.
Qed.

Lemma merge_loop_closed outp fs paths :
  for_each paths
    (fun segment_path =>
       cap ← VideoCapture segment_path;
       for_each (cap_frames cap) (fun frame => writer_write (mk_writer outp false) frame))
    fs
  = (fs, Ok tt).
Proof.
  induction paths as [|p rest IH]; [done|].
  simpl. unfold VideoCapture. mrun.
  pose proof (write_closed (fun x => x) outp (cap_frames (decode fs p)) fs) as H.
  simpl in H. rewrite H. exact IH.
Qed.

(** [merge_segments], in closed form: it raises on the empty list and on
    nothing else. *)
Lemma merge_segments_spec h paths outp fs :
  outp ∉ paths ->
  merge_segments h paths outp fs =
  match paths with
  | [] => (fs, Raise (Exception "No segments to merge"))
  | first :: _ =>
      let cap := decode fs first in
      (if encoder_opens h (cap_fps cap) (cap_width cap) (cap_height cap)
       then <[outp := FVideo (written_video (cap_fps cap) (cap_width cap) (cap_height cap)
                                 (concat (frames_at fs <$> paths)))]> fs
       else fs,
       Ok tt)
  end.
Proof.
  intros Hnot. unfold merge_segments. destruct paths as [|first rest]; [done|].
  erewrite bind_Ok by apply VideoCapture_run.
  cbv zeta.
  destruct (encoder_opens h _ _ _) eqn:Henc.
  - erewrite bind_Ok by (rewrite VideoWriter_with_fallback_spec, Henc; reflexivity).
    apply (merge_loop_open outp _ _ _ fs (first :: rest) [] Hnot).
  - erewrite bind_Ok by (rewrite VideoWriter_with_fallback_spec, Henc; reflexivity).
    apply merge_loop_closed.
Qed.

Lemma merge_segments_empty h outp fs :
  merge_segments h [] outp fs = (fs, Raise (Exception "No segments to merge")).
Proof. reflexivity. Qed.

Lemma for_each_returns {S A} (xs : list A) (body : A -> M S unit) :
  (forall x s, exists s', body x s = (s', Ok tt)) ->
  forall s, exists s', for_each xs body s = (s', Ok tt).
Proof.
  intros Hbody. induction xs as [|x rest IH]; intros s.
  - by exists s.
  - simpl. unfold mbind, M_bind.
    destruct (Hbody x s) as [s1 E1]. rewrite E1. apply IH.
Qed.

Lemma writer_write_returns (out : writer) (frame : Frame) fs :
  exists fs', writer_write out frame fs = (fs', Ok tt).
Proof. unfold writer_write. destruct (w_opened out); mrun; eauto. Qed.

(** Whatever the files under the given paths are, present or not,
    readable or not, [merge_segments] on a non-empty list returns. *)
Lemma merge_segments_returns h paths outp fs :
  paths ≠ [] -> exists fs', merge_segments h paths outp fs = (fs', Ok tt).
Proof.
  intros Hne. unfold merge_segments. destruct paths as [|first rest]; [done|].
  erewrite bind_Ok by apply VideoCapture_run.
  assert (Hw : exists out fs1, VideoWriter_with_fallback h outp
             (cap_fps (decode fs first)) (cap_width (decode fs first))
             (cap_height (decode fs first)) fs = (fs1, Ok out)).
  { rewrite VideoWriter_with_fallback_spec. destruct (encoder_opens h _ _ _); eauto. }
  destruct Hw as (out & fs1 & Hw).
  erewrite bind_Ok by exact Hw.
  apply for_each_returns. intros p s.
  erewrite bind_Ok by apply VideoCapture_run.
  apply for_each_returns. intros frame s1. apply writer_write_returns.
Qed.

End Merger.

Lemma decode_written {Frame} (fs : gmap string (@file Frame)) p fps w hh frames :
  fs !! p = Some (FVideo (written_video fps w hh frames)) ->
  decode fs p = mk_capture true fps w hh (Z.of_nat (length frames)) frames.
Proof. intros H. unfold decode. by rewrite H. Qed.

(** C4: whatever the order in which the pool's workers complete,
    [process_parallel] hands the filtered segments back in segment index
    order and [merge_segments] appends the frames of every one of them, in
    full and in that order, to an output that has the frame rate and
    geometry of the first result.  The merged video is [merged_video],
    which the completion order does not enter. *)
Theorem merge_in_index_order {Frame} `{!PixelTransforms Frame}
    (h : host) (order : list nat) (vp : string) (d : Q)
    (segs : list string) (filter_type outp : string)
    (fs : gmap string (@file Frame)) :
  let self := init vp d in
  let h' := with_completion_order h order in
  1 <= cpu_count h ->
  order ≡ₚ seq 0 (length segs) ->
  segs ≠ [] ->
  (forall seg j, seg ∈ segs -> seg ≠ par_path self j) ->
  (forall j, outp ≠ par_path self j) ->
  (forall seg, seg ∈ segs -> encoder_opens_for h fs seg = true) ->
  exists fs1 par_paths fs2 first_result merged,
    process_parallel h' self segs filter_type fs = (fs1, Ok (par_paths, measured_time h))
    /\ par_paths = par_path self <$> seq 0 (length segs)
    /\ merge_segments h' par_paths outp fs1 = (fs2, Ok tt)
    /\ fs2 !! outp = Some (FVideo merged)
    /\ merged_video fs filter_type segs = Some merged
    /\ v_frames merged = concat (frames_at fs1 <$> par_paths)
    /\ par_paths !! 0%nat = Some first_result
    /\ v_fps merged = cap_fps (decode fs1 first_result)
    /\ v_width merged = cap_width (decode fs1 first_result)
    /\ v_height merged = cap_height (decode fs1 first_result).
Proof.
  intros self h' Hcpu Hperm Hne Hapart Hout Henc.
  destruct (process_parallel_spec h' vp d segs filter_type fs Hapart Henc Hcpu Hperm)
    as (fs1 & Epar & Hframe & Hres).
  destruct segs as [|seg0 rest] eqn:Esegs; [done|]. rewrite <- Esegs in *.
  assert (Hseg0 : segs !! 0%nat = Some seg0) by (by rewrite Esegs).
  assert (Hfiles : forall i seg, segs !! i = Some seg ->
            decode fs1 (par_path self i)
            = mk_capture true (cap_fps (decode fs seg)) (cap_width (decode fs seg))
                (cap_height (decode fs seg))
                (Z.of_nat (length (get_filter_function filter_type <$> frames_at fs seg)))
                (get_filter_function filter_type <$> frames_at fs seg)).
  { intros i seg Hi. apply decode_written. apply (Hres i seg Hi). }
  assert (Hframes : frames_at fs1 <$> (par_path self <$> seq 0 (length segs))
            = (fun seg => get_filter_function filter_type <$> frames_at fs seg) <$> segs).
  { apply list_eq. intros i. rewrite !list_lookup_fmap.
    destruct (segs !! i) as [seg|] eqn:Hi; simpl.
    - rewrite lookup_seq_lt by (eapply lookup_lt_Some; eauto). simpl.
      unfold frames_at at 1. by rewrite (Hfiles i seg Hi).
    - rewrite lookup_seq_ge; [done|]. by apply lookup_ge_None. }
  assert (Hnotin : outp ∉ par_path self <$> seq 0 (length segs)).
  { intros Hin. apply list_elem_of_fmap in Hin as (j & -> & _). by apply (Hout j). }
  pose proof (merge_segments_spec h' _ outp fs1 Hnotin) as Emerge.
  assert (Epaths : par_path self <$> seq 0 (length segs)
                   = par_path self 0%nat :: (par_path self <$> seq 1 (length rest))).
  { rewrite Esegs. reflexivity. }
  rewrite Epaths in Emerge at 2. cbv zeta in Emerge.
  rewrite (Hfiles 0%nat seg0 Hseg0) in Emerge. simpl in Emerge.
  assert (Hopen : encoder_opens h' (cap_fps (decode fs seg0)) (cap_width (decode fs seg0))
                    (cap_height (decode fs seg0)) = true).
  { apply (Henc seg0). rewrite Esegs. apply list_elem_of_here. }
  rewrite Hopen, Hframes in Emerge.
  eexists fs1, _, _, (par_path self 0%nat), _.
  split; [exact Epar|]. split; [reflexivity|]. split; [exact Emerge|].
  split; [apply lookup_insert_eq|].
  split; [by rewrite Esegs|].
  fold self. split; [by rewrite Hframes|].
  split; [by rewrite Esegs|].
  rewrite (Hfiles 0%nat seg0 Hseg0). done.
Qed.

(** ** The audio sidecar *)

Section Sidecar.

Context {Frame : Type}.
Implicit Types fs : gmap string (@file Frame).

(** Whatever the muxing tool does (missing, failing or succeeding),
    [merge_audio_with_video] returns a boolean and raises nothing. *)
Lemma merge_audio_with_video_returns h video_path audio_path output_path fs :
  exists fs' (merged : bool),
    merge_audio_with_video h video_path audio_path output_path fs = (fs', Ok merged).
Proof.
  unfold merge_audio_with_video, try_except, run_remux, path_exists, os_remove,
    shutil_move.
  destruct (ffmpeg_remux h);
    repeat (mrun;
            match goal with
            | H : ?m !! ?k = _ |- context [?m !! ?k] => rewrite H
            | |- context [bool_decide (is_Some (?m !! ?k))] => destruct (m !! k) eqn:?
            | |- context [match ?m !! ?k with _ => _ end] => destruct (m !! k) eqn:?
            | |- context [match ?f with FVideo _ => _ | _ => _ end] => destruct f
            end);
    eauto.
Qed.

(** A failing mux leaves the video as it was and answers [False]. *)
Lemma merge_audio_with_video_failed h video_path audio_path output_path fs :
  ffmpeg_remux h = ExitNonZero ->
  fs !! (output_path +:+ ".temp.mp4") = None ->
  merge_audio_with_video h video_path audio_path output_path fs = (fs, Ok false).
Proof.
  intros Hrun Htemp.
  unfold merge_audio_with_video, try_except, run_remux, path_exists.
  rewrite Hrun. mrun. rewrite Htemp. done.
Qed.

End Sidecar.

(** ** The estimator *)

Lemma Qpositive_true (x : Q) : Qpositive x = true <-> (0 < x)%Q.
Proof.
  unfold Qpositive. rewrite negb_true_iff.
  split.
  - intros H. apply Qnot_le_lt. intros Hle. apply Qle_bool_iff in Hle. congruence.
  - intros H. destruct (Qle_bool x 0) eqn:E; [|done].
    apply Qle_bool_iff in E. exfalso. by apply (Qlt_not_le _ _ H).
Qed.

Lemma Qpositive_false (x : Q) : Qpositive x = false <-> (x <= 0)%Q.
Proof.
  unfold Qpositive. rewrite negb_false_iff. apply Qle_bool_iff.
Qed.

Lemma round_half_even_integer (x : Q) (k : Z) :
  (x == inject_Z k)%Q -> round_half_even x = k.
Proof.
  intros E. unfold round_half_even.
  assert (Ef : Qfloor x = k) by (rewrite E; apply Qfloor_Z).
  rewrite Ef.
  assert (E0 : (2 * (x - inject_Z k) == 0)%Q) by (rewrite E; ring).
  rewrite E0. reflexivity.
Qed.

Lemma round2_integer (x : Q) (k : Z) : (x == inject_Z k)%Q -> (round2 x == inject_Z k)%Q.
Proof.
  intros E. unfold round2.
  rewrite (round_half_even_integer (x * 100) (k * 100)).
  - rewrite inject_Z_mult. field.
  - rewrite E, inject_Z_mult. reflexivity.
Qed.

Lemma estimate_speedup_positive (P : Q) (W S : Z) :
  (0 < P)%Q -> ((estimate P W S).2 == inject_Z (Z.min W S))%Q.
Proof.
  intros HP. unfold estimate. simpl.
  apply Qpositive_true in HP as Hb. rewrite Hb.
  field. intros E. rewrite E in HP. by apply Qlt_irrefl in HP.
Qed.

(** C2: the estimated sequential time is [P * min(W, S)]; the speedup is
    that estimate divided by [P] when [P > 0], and then at least 1, and it
    is 1 when [P = 0]. *)
Theorem estimate_spec (P : Q) (W S : Z) :
  (0 <= P)%Q -> (1 <= W)%Z -> (1 <= S)%Z ->
  ((estimate P W S).1 == P * inject_Z (Z.min W S))%Q
  /\ ((0 < P)%Q ->
        ((estimate P W S).2 == (estimate P W S).1 / P)%Q
        /\ (1 <= (estimate P W S).2)%Q)
  /\ ((P == 0)%Q -> (estimate P W S).2 = 1%Q).
Proof.
  intros HP HW HS. split; [reflexivity|]. split.
  - intros Hpos. split.
    + unfold estimate. simpl. apply Qpositive_true in Hpos. by rewrite Hpos.
    + rewrite estimate_speedup_positive by done.
      change 1%Q with (inject_Z 1). rewrite <- Zle_Qle. lia.
  - intros E. unfold estimate. simpl.
    assert (Hb : Qpositive P = false).
    { apply Qpositive_false. rewrite E. apply Qle_refl. }
    by rewrite Hb.
Qed.

(** ** What a successful run reports *)

Arguments extract_audio : simpl never.
Arguments split_video : simpl never.
Arguments merge_audio_with_video : simpl never.
Arguments cleanup_segments : simpl never.
Arguments path_exists : simpl never.

Lemma bind_Ok_inv {S A B} (m : M S A) (k : A -> M S B) s s' b :
  (m ≫= k) s = (s', Ok b) -> exists s1 a, m s = (s1, Ok a) /\ k a s1 = (s', Ok b).
Proof.
  unfold mbind, M_bind. destruct (m s) as [s1 [a|e|]]; intros H; try done.
  by exists s1, a.
Qed.

Section Report.

Context {Frame : Type} `{!PixelTransforms Frame}.
Implicit Types fs : gmap string (@file Frame).

Lemma process_parallel_time h self segs filter_type fs fs1 paths t :
  process_parallel h self segs filter_type fs = (fs1, Ok (paths, t)) ->
  t = measured_time h.
Proof.
  unfold process_parallel. destruct (cpu_count h <? 1); [done|].
  intros H. apply bind_Ok_inv in H as (s1 & a & _ & H).
  by injection H as _ _ <-.
Qed.

(** The dictionary of a successful run, read off the code. *)
Lemma process_video_success h self filter_type output_filename fs fs' m :
  process_video h self filter_type output_filename fs = (fs', Ok (Success m)) ->
  exists (has_audio : bool) (segs : list string),
    let P := measured_time h in
    let W := cpu_count h in
    let n := Z.of_nat (length segs) in
    m = mk_metrics (path_join (output_dir self) output_filename)
          (round2 (estimate P W n).1) (round2 P) (round2 (estimate P W n).2)
          n W has_audio.
Proof.
  unfold process_video, try_except.
  match goal with |- context [let (_, _) := ?body fs in _] =>
    destruct (body fs) as [s o] eqn:E end.
  destruct o as [r|e|]; [|done|done].
  intros H. injection H as -> ->.
  destruct (negb _) in E; [done|].
  apply bind_Ok_inv in E as (s0 & has_audio & _ & E).
  apply bind_Ok_inv in E as (s1 & segs & _ & E).
  apply bind_Ok_inv in E as (s2 & [par_paths par_time] & Hpar & E).
  apply process_parallel_time in Hpar as ->.
  apply bind_Ok_inv in E as (s3 & [] & _ & E).
  apply bind_Ok_inv in E as (s4 & ex & _ & E).
  apply bind_Ok_inv in E as (s5 & [] & _ & E).
  unfold estimate in E. cbv zeta in E.
  apply bind_Ok_inv in E as (s6 & [] & _ & E).
  injection E as _ <-.
  by exists has_audio, segs.
Qed.

(** What a successful run reports as [audio_preserved] is what
    [extract_audio] returned at step 0; what the muxing step returned does
    not enter it. *)
Lemma reported_audio_is_extraction_result h self filter_type output_filename fs fs' m :
  process_video h self filter_type output_filename fs = (fs', Ok (Success m)) ->
  exists fs0,
    extract_audio h (video_path self)
      (path_join (segments_dir self) "original_audio.aac") fs
    = (fs0, Ok (audio_preserved m)).
Proof.
  unfold process_video, try_except.
  match goal with |- context [let (_, _) := ?body fs in _] =>
    destruct (body fs) as [s o] eqn:E end.
  destruct o as [r|e|]; [|done|done].
  intros H. injection H as -> ->.
  destruct (negb _) in E; [done|].
  apply bind_Ok_inv in E as (s0 & has_audio & Hextract & E).
  apply bind_Ok_inv in E as (s1 & segs & _ & E).
  apply bind_Ok_inv in E as (s2 & [par_paths par_time] & _ & E).
  apply bind_Ok_inv in E as (s3 & [] & _ & E).
  apply bind_Ok_inv in E as (s4 & ex & _ & E).
  apply bind_Ok_inv in E as (s5 & [] & _ & E).
  unfold estimate in E. cbv zeta in E.
  apply bind_Ok_inv in E as (s6 & [] & _ & E).
  injection E as _ <-.
  by exists s0.
Qed.

End Report.

(** C10: in the dictionary of a successful run with a positive measured
    time [P], the speedup is exactly [min(cpu_cores_used,
    segments_processed)], the sequential time is [P] times that factor,
    rounded to two decimals, and the parallel time is [P] rounded: the
    speedup is fixed by the two counts alone. *)
Theorem reported_speedup_is_pool_width {Frame} `{!PixelTransforms Frame}
    (h : host) (self : VideoProcessor) (filter_type output_filename : string)
    (fs fs' : gmap string (@file Frame)) (m : metrics) :
  process_video h self filter_type output_filename fs = (fs', Ok (Success m)) ->
  (0 < measured_time h)%Q ->
  let factor := Z.min (cpu_cores_used m) (segments_processed m) in
  (speedup m == inject_Z factor)%Q
  /\ (sequential_time m == round2 (measured_time h * inject_Z factor))%Q
  /\ parallel_time m = round2 (measured_time h)
  /\ cpu_cores_used m = cpu_count h.
Proof.
  intros Hrun HP.
  apply process_video_success in Hrun as (has_audio & segs & ->).
  simpl. split; [|split; [|split]]; try reflexivity.
  apply round2_integer. by apply estimate_speedup_positive.
Qed.

(** ** The pipeline on concrete inputs *)

(** The 25-second clip at 3 frames per second, cut every 10 seconds:
    segments of 30, 30 and 15 frames. *)
Lemma split_video_segments_witness :
  exists fs' paths,
    split_video sample_host (init "uploads/job-1_clip.mp4" 10) sample_disk = (fs', Ok paths)
    /\ length paths = 3%nat
    /\ concat (map (frames_at fs') paths) = seqZ 0 75
    /\ (forall p, last paths = Some p -> Z.of_nat (length (frames_at fs' p)) = 15).
Proof.
  destruct (split_video_segments sample_host "uploads/job-1_clip.mp4" 10
              sample_disk sample_clip)
    as (fs' & paths & Hrun & _ & Hcount & Hconcat & _ & _ & Hlast).
  - reflexivity.
  - reflexivity.
  - vm_compute. discriminate.
  - exists fs', paths. split; [exact Hrun|]. split; [|split].
    + match type of Hcount with _ = ?rhs =>
        let v := eval vm_compute in rhs in change rhs with v in Hcount end.
      lia.
    + exact Hconcat.
    + intros p Hp. rewrite (Hlast p Hp). reflexivity.
Defined.

(** At 29.97 frames per second and 10-second segments the code cuts every
    [int(299.7) = 299] frames, not every [round(299.7) = 300]: a 300-frame
    source gives two segments, of 299 frames and of 1, where
    [ceil(300 / 300)] is 1. *)
Lemma split_video_rounds_down :
  let self := init "uploads/ntsc.mp4" 10 in
  let r := split_video sample_host self ntsc_disk in
  py_round ((2997 # 100) * 10) = 300
  /\ frames_per_segment_of (2997 # 100) self = 299
  /\ r.2 = Ok ["segments/segment_000.mp4"; "segments/segment_001.mp4"]
  /\ map (fun p => length (frames_at r.1 p))
         ["segments/segment_000.mp4"; "segments/segment_001.mp4"] = [299; 1]%nat
  /\ ~ (exists paths, r.2 = Ok paths /\
        Z.of_nat (length paths)
        = Qceiling (300 / inject_Z (py_round ((2997 # 100) * 10)))).
Proof.
  split; [reflexivity|]. split; [reflexivity|].
  split; [by vm_compute|]. split; [by vm_compute|].
  intros (paths & Hrun & Hcount).
  vm_compute in Hrun. injection Hrun as <-.
  vm_compute in Hcount. discriminate.
Qed.

Lemma three_segments_apart vp d seg j :
  seg ∈ three_segments -> seg ≠ par_path (init vp d) j.
Proof.
  intros Hin. rewrite par_path_init. unfold three_segments in Hin.
  repeat (apply elem_of_cons in Hin as [->|Hin]; [discriminate|]).
  by apply elem_of_nil in Hin.
Qed.

Lemma job_output_apart vp d j :
  "outputs/job-1_processed.mp4" ≠ par_path (init vp d) j.
Proof. rewrite par_path_init. discriminate. Qed.

(** Three segments filtered by workers that finish in the order 2, 0, 1:
    the merged frames are those of segment 0, then 1, then 2. *)
Lemma merge_in_index_order_witness :
  exists fs1 par_paths fs2 merged,
    process_parallel sample_host (init "uploads/job-1_clip.mp4" 10)
      three_segments "grayscale" three_segments_disk
      = (fs1, Ok (par_paths, 3 # 2))
    /\ merge_segments sample_host par_paths "outputs/job-1_processed.mp4" fs1 = (fs2, Ok tt)
    /\ fs2 !! "outputs/job-1_processed.mp4" = Some (FVideo merged)
    /\ v_frames merged = [1000; 1001; 1002; 1003; 1004; 1005].
Proof.
  destruct (merge_in_index_order sample_host [2; 0; 1]%nat "uploads/job-1_clip.mp4" 10
              three_segments "grayscale" "outputs/job-1_processed.mp4" three_segments_disk)
    as (fs1 & par_paths & fs2 & first & merged & Hpar & _ & Hmerge & Hout & Hmv & _).
  - vm_compute. discriminate.
  - apply (Permutation_cons_app [0; 1]%nat [] 2%nat). reflexivity.
  - discriminate.
  - intros seg j. apply three_segments_apart.
  - apply job_output_apart.
  - intros seg Hin. reflexivity.
  - exists fs1, par_paths, fs2, merged.
    split; [exact Hpar|]. split; [exact Hmerge|]. split; [exact Hout|].
    vm_compute in Hmv. by injection Hmv as <-.
Defined.

Lemma estimate_spec_witness :
  ((estimate (3 # 2) 4 3).1 == (3 # 2) * inject_Z (Z.min 4 3))%Q
  /\ (1 <= (estimate (3 # 2) 4 3).2)%Q.
Proof.
  destruct (estimate_spec (3 # 2) 4 3) as (Hest & Hpos & _).
  - vm_compute. discriminate.
  - lia.
  - lia.
  - split; [exact Hest|]. apply Hpos. reflexivity.
Defined.

Lemma reported_speedup_is_pool_width_witness :
  (speedup sample_metrics == 3)%Q
  /\ (sequential_time sample_metrics == round2 ((3 # 2) * 3))%Q.
Proof.
  destruct (reported_speedup_is_pool_width sample_host
              (init "uploads/job-1_clip.mp4" default_segment_duration)
              "grayscale" "job-1_processed.mp4" sample_disk sample_run.1 sample_metrics)
    as (Hs & Hq & _).
  - by vm_compute.
  - reflexivity.
  - split; [exact Hs | exact Hq].
Defined.

(** C5, on the code: the source has sound, ffmpeg extracts it, and the
    muxing ffmpeg call exits non-zero.  The run succeeds, the output holds
    no audio stream, and the dictionary says [audio_preserved: True]: the
    value reported is [has_audio], what [extract_audio] returned, and what
    [merge_audio_with_video] returned is dropped. *)
Theorem remux_failure_reported_as_preserved :
  let r := process_video remux_failing_host
             (init "uploads/job-1_clip.mp4" default_segment_duration)
             "grayscale" "job-1_processed.mp4" sample_disk in
  (exists m, r.2 = Ok (Success m) /\ audio_preserved m = true)
  /\ v_audio <$> (match r.1 !! "outputs/job-1_processed.mp4" with
                  | Some (FVideo v) => Some v
                  | _ => None
                  end) = Some false
  /\ (merge_audio_with_video remux_failing_host "outputs/job-1_processed.mp4"
        "segments/original_audio.aac" "outputs/job-1_processed.mp4"
        (<[ "segments/original_audio.aac" := FAudio ]> sample_disk)).2 = Ok false.
Proof.
  split; [|split].
  - eexists. split; [by vm_compute|reflexivity].
  - by vm_compute.
  - by vm_compute.
Qed.

(** C8, on the code: of two filtered segments the second is not on disk.
    [merge_segments] does not raise: it returns, and the output holds the
    frames of the first segment only. *)
Theorem merge_skips_unreadable_segment :
  let r := merge_segments sample_host results_with_one_missing
             "outputs/job-1_processed.mp4" disk_with_one_missing in
  disk_with_one_missing !! "outputs/par_processed_001.mp4" = None
  /\ r.2 = Ok tt
  /\ frames_at r.1 "outputs/job-1_processed.mp4" = [1000; 1001].
Proof. split; [by vm_compute|]. split; by vm_compute. Qed.

(** ** The job service *)

Arguments process_video_task : simpl never.
Arguments save_jobs : simpl never.

Section ServiceFacts.

Context {Frame : Type} `{!PixelTransforms Frame}.
Implicit Types st : @state Frame.

Lemma save_jobs_returns st : exists st',
  save_jobs st = (st', Ok tt)
  /\ jobs st' = jobs st /\ disk st' = disk st /\ tasks st' = tasks st.
Proof.
  unfold save_jobs. mrun. destruct (jobs_file_writable st); mrun; eauto.
Qed.

(** [process_video] turns every exception of a run into a failure
    dictionary. *)
Lemma process_video_never_raises h self filter_type output_filename
    (fs : gmap string (@file Frame)) e :
  (process_video h self filter_type output_filename fs).2 ≠ Raise e.
Proof.
  unfold process_video, try_except.
  match goal with |- context [let (_, _) := ?body fs in _] =>
    destruct (body fs) as [s [r|e'|]] end; done.
Qed.

Lemma process_video_task_never_raises h job_id video_path filter_type
    (fs : gmap string (@file Frame)) e :
  (process_video_task h job_id video_path filter_type fs).2 ≠ Raise e.
Proof.
  unfold process_video_task, try_except.
  match goal with |- context [let (_, _) := ?body fs in _] =>
    destruct (body fs) as [s [r|e'|]] end; done.
Qed.

(** A run that is resumed while its job is in the table ends in
    ['completed'] or ['failed'], and raises nothing. *)
Lemma process_in_background_records st job_id job result :
  jobs st !! job_id = Some job ->
  exists st',
    process_in_background_from (fun s => (s, Ok (job_id, result))) job_id st = (st', Ok tt)
    /\ jobs st' !! job_id =
       Some (match result with
             | Success m => set_results m (set_status "completed" job)
             | Failure err => set_error err (set_status "failed" job)
             end).
Proof.
  intros Hjob. unfold process_in_background_from, try_except, jobs_getitem.
  mrun. rewrite Hjob. mrun. unfold update_job.
  destruct result as [m|err]; mrun.
  - match goal with |- context [save_jobs ?s] =>
      destruct (save_jobs_returns s) as (st' & E & Hj & _); rewrite E end.
    exists st'. split; [done|]. rewrite Hj. simpl.
    by rewrite !lookup_alter_eq, Hjob.
  - match goal with |- context [save_jobs ?s] =>
      destruct (save_jobs_returns s) as (st' & E & Hj & _); rewrite E end.
    exists st'. split; [done|]. rewrite Hj. simpl.
    by rewrite !lookup_alter_eq, Hjob.
Qed.

(** A run that is resumed after its job has left the table: the lookup
    raises [KeyError], the handler looks the job up again, and the second
    [KeyError] leaves [process_in_background]. *)
Lemma process_in_background_deleted_job st job_id (r : outcome (string * pipeline_result)) :
  jobs st !! job_id = None ->
  r ≠ NoReturn ->
  process_in_background_from (fun s => (s, r)) job_id st = (st, Raise (KeyError job_id)).
Proof.
  intros Hjob Hr. unfold process_in_background_from, try_except, jobs_setitem, jobs_getitem.
  destruct r as [a|e|]; [| |done]; mrun; rewrite Hjob; mrun; by rewrite ?Hjob.
Qed.

End ServiceFacts.

(** The three ways out of [start_processing]. *)
Lemma start_processing_cases {Frame} (st : @state Frame) (request : ProcessRequest) :
  let job_id := req_job_id request in
  let filter_type := req_filter_type request in
  match jobs st !! job_id with
  | None => start_processing request st = (st, Raise (HTTPException 404 "Job not found"))
  | Some job =>
      if bool_decide (filter_type ∈ valid_filters) then
        exists st',
          start_processing request st = (st', Ok ("Processing started", job_id, filter_type))
          /\ jobs st' = <[job_id := set_filter_type filter_type (set_status "processing" job)]>
                          (jobs st)
          /\ tasks st' = tasks st ++ [mk_task job_id (file_path job) filter_type]
          /\ disk st' = disk st
      else
        start_processing request st = (st, Raise (HTTPException 400 invalid_filter_detail))
  end.
Proof.
  intros job_id filter_type. unfold start_processing. mrun.
  fold job_id filter_type.
  destruct (jobs st !! job_id) as [job|] eqn:Hjob; [|done].
  destruct (bool_decide (filter_type ∈ valid_filters)); [|done].
  unfold update_job. mrun.
  match goal with |- context [save_jobs ?s] =>
    destruct (save_jobs_returns s) as (st1 & E & Hj & Hd & Ht); rewrite E end.
  eexists. split; [reflexivity|]. simpl. rewrite Hj, Hd, Ht. simpl.
  split; [|done].
  apply map_eq. intros k. destruct (decide (job_id = k)) as [<-|Hne].
  - by rewrite !lookup_alter_eq, lookup_insert_eq, Hjob.
  - by rewrite !lookup_alter_ne, lookup_insert_ne.
Qed.


(** C1, as the code has it: [start_processing] does not look at the job's
    status.  A request is rejected, and the state left as it was, only for
    an unknown job (404) or a filter outside the catalog (400).  For an
    existing job in any status, ['completed'] included, a request with a
    catalog filter is accepted: the status becomes ['processing'], the
    filter is recorded, the other fields of the record and the other jobs
    are unchanged, and one background run is scheduled. *)
Theorem start_processing_policy {Frame} (st : @state Frame) (request : ProcessRequest) :
  let job_id := req_job_id request in
  let filter_type := req_filter_type request in
  match jobs st !! job_id with
  | None => start_processing request st = (st, Raise (HTTPException 404 "Job not found"))
  | Some job =>
      if bool_decide (filter_type ∈ valid_filters) then
        exists st',
          start_processing request st = (st', Ok ("Processing started", job_id, filter_type))
          /\ jobs st' = <[job_id := set_filter_type filter_type (set_status "processing" job)]>
                          (jobs st)
          /\ tasks st' = tasks st ++ [mk_task job_id (file_path job) filter_type]
          /\ disk st' = disk st
      else
        start_processing request st = (st, Raise (HTTPException 400 invalid_filter_detail))
  end.
Proof. apply start_processing_cases. Qed.

(** A job that is ['completed'] is processed again on request: the call
    is not rejected, and the status goes back to ['processing']. *)
Lemma completed_job_is_reprocessed :
  let r := start_processing (mk_request "job-1" "blur") service_after_completion in
  status <$> jobs service_after_completion !! "job-1" = Some "completed"
  /\ r.2 = Ok ("Processing started", "job-1", "blur")
  /\ status <$> jobs r.1 !! "job-1" = Some "processing"
  /\ ~ (raises r.2 /\ jobs r.1 = jobs service_after_completion).
Proof.
  split; [by vm_compute|]. split; [by vm_compute|]. split; [by vm_compute|].
  intros [[e He] _]. vm_compute in He. discriminate.
Qed.

(** C7: a request naming a filter outside the catalog, for a job that
    exists, is rejected with status code 400 and changes nothing: the job
    record, its status and its empty filter entry are as they were, and no
    run is scheduled. *)
Theorem unknown_filter_rejected {Frame} (st : @state Frame) (request : ProcessRequest)
    (job : job) :
  jobs st !! req_job_id request = Some job ->
  req_filter_type request ∉ valid_filters ->
  exists st' detail,
    start_processing request st = (st', Raise (HTTPException 400 detail))
    /\ st' = st
    /\ jobs st' !! req_job_id request = Some job
    /\ tasks st' = tasks st.
Proof.
  intros Hjob Hfilter.
  pose proof (start_processing_cases st request) as H. cbv zeta in H.
  rewrite Hjob in H. rewrite bool_decide_eq_false_2 in H by done.
  exists st, invalid_filter_detail. done.
Qed.

Lemma unknown_filter_rejected_witness :
  exists st' detail,
    start_processing (mk_request "job-1" "vignette") service_after_upload
      = (st', Raise (HTTPException 400 detail))
    /\ status <$> jobs st' !! "job-1" = Some "uploaded"
    /\ filter_type <$> jobs st' !! "job-1" = Some None.
Proof.
  destruct (unknown_filter_rejected service_after_upload
              (mk_request "job-1" "vignette") sample_job)
    as (st' & detail & Hrun & _ & Hjob & _).
  - reflexivity.
  - apply (bool_decide_eq_false_1 ("vignette" ∈ valid_filters)). reflexivity.
  - exists st', detail. split; [exact Hrun|].
    simpl in Hjob. rewrite Hjob. split; reflexivity.
Defined.

(** C9: when [jobs.json] is missing, or is there and does not parse,
    start-up returns normally with an empty job table; the exception of a
    failed load is caught inside [load_jobs]. *)
Theorem startup_without_usable_jobs_file {Frame} (st : @state Frame) :
  jobs_file st = NoFile \/ jobs_file st = Unparseable ->
  exists st',
    startup st = (st', Ok tt)
    /\ jobs st' = ∅
    /\ jobs_file st' = jobs_file st
    /\ disk st' = disk st.
Proof.
  intros [H|H]; unfold startup, load_jobs, json_load; mrun;
    repeat (rewrite H; mrun);
    eexists; (split; [reflexivity|]); done.
Qed.

Lemma startup_without_usable_jobs_file_witness :
  exists st', startup service_with_corrupt_file = (st', Ok tt) /\ jobs st' = ∅.
Proof.
  destruct (startup_without_usable_jobs_file service_with_corrupt_file)
    as (st' & Hrun & Hjobs & _).
  - right. reflexivity.
  - exists st'. split; [exact Hrun | exact Hjobs].
Defined.

(** C6, on the code: a job is cleaned up while its run is in flight.  The
    run itself ends well; when [process_in_background] is resumed with its
    result, [jobs[job_id]] raises [KeyError], the handler's own
    [jobs[job_id]] raises it again, and that exception leaves the
    coroutine. *)
Theorem resumed_run_of_deleted_job_raises :
  submitted.2 = Ok ("Processing started", "job-1", "grayscale")
  /\ (exists m, executor_run.2 = Ok ("job-1", Success m))
  /\ cleaned_up.2 = Ok "Job cleaned up successfully"
  /\ jobs cleaned_up.1 !! "job-1" = None
  /\ resumed_after_cleanup.2 = Raise (KeyError "job-1").
Proof.
  split; [by vm_compute|]. split; [eexists; by vm_compute|].
  split; [by vm_compute|]. split; by vm_compute.
Qed.

(** ** More on the segmenter *)

Section SegmenterAlways.

Context {Frame : Type}.
Implicit Types fs : gmap string (@file Frame).
Variables (h : host) (self : VideoProcessor).
Variables (fps : Q) (width height : Z) (L : Z).

(** The loop never finds its writer unset: the first frame opens one. *)
Lemma split_body_returns fs0 fs st frame :
  (is_Some (out st) \/ frame_count st = 0) ->
  (forall w, out st = Some w -> exists j, w_path w = segment_path_of self j) ->
  segment_paths st = segment_path_of self <$> seq 0 (current_segment st) ->
  (forall p, (forall j, p ≠ segment_path_of self j) -> fs !! p = fs0 !! p) ->
  exists fs' st',
    split_body h self fps width height L frame st fs = (fs', Ok st')
    /\ is_Some (out st')
    /\ (forall w, out st' = Some w -> exists j, w_path w = segment_path_of self j)
    /\ segment_paths st' = segment_path_of self <$> seq 0 (current_segment st')
    /\ (forall p, (forall j, p ≠ segment_path_of self j) -> fs' !! p = fs0 !! p).
Proof.
  intros Hout Hw Hpaths Hframe. unfold split_body.
  destruct (frame_count st `mod` L =? 0) eqn:Hm.
  - unfold VideoWriter.
    destruct (writer_opens h avc1 fps width height); mrun.
    + eexists _, _. split; [reflexivity|].
      cbn [out segment_paths current_segment frame_count w_path].
      split; [eauto|]. split; [|split].
      * intros w [= <-]. simpl. eauto.
      * rewrite Hpaths, seq_S, fmap_app. done.
      * intros p Hp. rewrite lookup_alter_ne, lookup_insert_ne by (apply not_eq_sym, Hp).
        by apply Hframe.
    + eexists _, _. split; [reflexivity|].
      cbn [out segment_paths current_segment frame_count w_path].
      split; [eauto|]. split; [|split].
      * intros w [= <-]. simpl. eauto.
      * rewrite Hpaths, seq_S, fmap_app. done.
      * done.
  - destruct Hout as [[w Hout]|Hzero].
    2: { rewrite Hzero, Zmod_0_l in Hm. done. }
    mrun. rewrite Hout. unfold writer_write.
    destruct (Hw w Hout) as [j Hj].
    destruct (w_opened w); mrun.
    + eexists _, _. split; [reflexivity|].
      cbn [out segment_paths current_segment frame_count w_path].
      split; [eauto|]. split; [by rewrite <- Hout|]. split; [exact Hpaths|].
      intros p Hp. rewrite lookup_alter_ne; [by apply Hframe|].
      rewrite Hj. apply not_eq_sym, Hp.
    + eexists _, _. split; [reflexivity|].
      cbn [out segment_paths current_segment frame_count w_path].
      split; [eauto|]. split; [by rewrite <- Hout|]. split; [exact Hpaths|exact Hframe].
Qed.

Lemma split_loop_returns fs0 frames : forall fs st,
  (is_Some (out st) \/ frame_count st = 0) ->
  (forall w, out st = Some w -> exists j, w_path w = segment_path_of self j) ->
  segment_paths st = segment_path_of self <$> seq 0 (current_segment st) ->
  (forall p, (forall j, p ≠ segment_path_of self j) -> fs !! p = fs0 !! p) ->
  exists fs' st',
    split_loop h self fps width height L frames st fs = (fs', Ok st')
    /\ segment_paths st' = segment_path_of self <$> seq 0 (current_segment st')
    /\ (forall p, (forall j, p ≠ segment_path_of self j) -> fs' !! p = fs0 !! p).
Proof.
  induction frames as [|frame rest IH]; intros fs st Hout Hw Hpaths Hframe.
  - exists fs, st. done.
  - destruct (split_body_returns fs0 fs st frame Hout Hw Hpaths Hframe)
      as (fs1 & st1 & E1 & Hout1 & Hw1 & Hpaths1 & Hframe1).
    destruct (IH fs1 st1 (or_introl Hout1) Hw1 Hpaths1 Hframe1)
      as (fs2 & st2 & E2 & Hpaths2 & Hframe2).
    exists fs2, st2. split; [|done].
    simpl. unfold mbind, M_bind. rewrite E1. exact E2.
Qed.

End SegmenterAlways.

(** The ways out of [split_video]. *)
Lemma split_video_cases {Frame} (h : host) (self : VideoProcessor)
    (fs : gmap string (@file Frame)) :
  let cap := decode fs (video_path self) in
  if negb (cap_opened cap)
  then split_video h self fs = (fs, Raise (Exception "Could not open video file"))
  else if Qeq_bool (cap_fps cap) 0
  then split_video h self fs = (fs, Raise (ZeroDivisionError "float division by zero"))
  else if frames_per_segment_of (cap_fps cap) self =? 0
  then split_video h self fs = (fs, Raise (ZeroDivisionError "division by zero"))
  else exists fs' paths,
    split_video h self fs = (fs', Ok paths)
    /\ paths = segment_path_of self <$> seq 0 (length paths)
    /\ (forall p, (forall j, p ≠ segment_path_of self j) -> fs' !! p = fs !! p).
Proof.
  intros cap. unfold split_video, VideoCapture. mrun. fold cap.
  destruct (negb (cap_opened cap)); [done|].
  unfold py_truediv. destruct (Qeq_bool (cap_fps cap) 0); [done|]. mrun.
  unfold segment_count_of, py_truediv.
  destruct (frames_per_segment_of (cap_fps cap) self =? 0) eqn:HL.
  - apply Z.eqb_eq in HL. rewrite HL. done.
  - apply Z.eqb_neq in HL.
    assert (Hnz : Qeq_bool (inject_Z (frames_per_segment_of (cap_fps cap) self)) 0 = false).
    { destruct (Qeq_bool _ 0) eqn:E; [|done].
      apply Qeq_bool_eq in E. unfold Qeq in E. simpl in E. lia. }
    rewrite Hnz. mrun.
    destruct (split_loop_returns h self (cap_fps cap) (cap_width cap) (cap_height cap)
                (frames_per_segment_of (cap_fps cap) self) fs (cap_frames cap) fs
                (mk_split 0 0 None []))
      as (fs' & st' & E & Hpaths & Hframe); simpl; try done.
    + by right.
    + rewrite E. exists fs', (segment_paths st'). split; [done|]. split; [|done].
      rewrite Hpaths at 1. by rewrite Hpaths, length_fmap, length_seq.
Qed.

(** X1: [split_video] has three ways to fail, each before anything is written:
    a source that does not open, a frame rate of zero, and a segment length
    that truncates to zero.  In every other case it returns: the paths are
    the segment names in index order, and no file other than the segment
    files is touched. *)
Theorem split_video_outcomes {Frame} (h : host) (self : VideoProcessor)
    (fs : gmap string (@file Frame)) :
  let cap := decode fs (video_path self) in
  if negb (cap_opened cap)
  then split_video h self fs = (fs, Raise (Exception "Could not open video file"))
  else if Qeq_bool (cap_fps cap) 0
  then split_video h self fs = (fs, Raise (ZeroDivisionError "float division by zero"))
  else if frames_per_segment_of (cap_fps cap) self =? 0
  then split_video h self fs = (fs, Raise (ZeroDivisionError "division by zero"))
  else exists fs' paths,
    split_video h self fs = (fs', Ok paths)
    /\ paths = segment_path_of self <$> seq 0 (length paths)
    /\ (forall p, (forall j, p ≠ segment_path_of self j) -> fs' !! p = fs !! p).
Proof. apply split_video_cases. Qed.

Section SegmenterWithoutEncoder.

Context {Frame : Type}.
Implicit Types fs : gmap string (@file Frame).
Variables (h : host) (self : VideoProcessor).
Variables (fps : Q) (width height : Z) (n : nat).
Hypothesis n_pos : (0 < n)%nat.
Hypothesis no_encoder : writer_opens h avc1 fps width height = false.

Lemma split_loop_without_encoder fs frames : forall (pre : list Frame) st,
  frame_count st = Z.of_nat (length pre) ->
  current_segment st = segments_after n (length pre) ->
  segment_paths st = segment_path_of self <$> seq 0 (segments_after n (length pre)) ->
  ((0 < length pre)%nat -> exists w, out st = Some w /\ w_opened w = false) ->
  exists st',
    split_loop h self fps width height (Z.of_nat n) frames st fs = (fs, Ok st')
    /\ segment_paths st'
       = segment_path_of self <$> seq 0 (segments_after n (length (pre ++ frames))).
Proof.
  induction frames as [|frame rest IH]; intros pre st Hc Hcur Hp Ho.
  - exists st. rewrite app_nil_r. done.
  - assert (Hstep : exists st1,
              split_body h self fps width height (Z.of_nat n) frame st fs = (fs, Ok st1)
              /\ frame_count st1 = Z.of_nat (length (pre ++ [frame]))
              /\ current_segment st1 = segments_after n (length (pre ++ [frame]))
              /\ segment_paths st1
                 = segment_path_of self <$> seq 0 (segments_after n (length (pre ++ [frame])))
              /\ exists w, out st1 = Some w /\ w_opened w = false).
    { unfold split_body. rewrite Hc, <- Nat2Z.inj_mod.
      rewrite length_app. simpl.
      replace (length pre + 1)%nat with (S (length pre)) by lia.
      destruct (Z.of_nat (length pre `mod` n) =? 0) eqn:Hm.
      - apply Z.eqb_eq in Hm.
        assert (Hm' : (length pre mod n = 0)%nat) by lia.
        destruct (segments_after_boundary n (length pre) n_pos Hm') as [E1 E2].
        unfold VideoWriter. rewrite no_encoder. mrun.
        eexists. split; [reflexivity|].
        cbn [out segment_paths current_segment frame_count].
        rewrite E2. split; [lia|]. split; [by rewrite Hcur, E1|].
        split; [by rewrite Hp, Hcur, E1, seq_S, fmap_app|]. eauto.
      - apply Z.eqb_neq in Hm.
        assert (Hm' : (length pre mod n ≠ 0)%nat) by lia.
        destruct (segments_after_inside n (length pre) n_pos Hm') as [E1 E2].
        assert (Hlen : (0 < length pre)%nat).
        { destruct (length pre); [|lia]. rewrite Nat.Div0.mod_0_l in Hm'. done. }
        destruct (Ho Hlen) as (w & Hw & Hclosed).
        mrun. rewrite Hw. unfold writer_write. rewrite Hclosed. mrun.
        eexists. split; [reflexivity|].
        cbn [out segment_paths current_segment frame_count].
        rewrite E2. split; [lia|]. split; [by rewrite Hcur, E1|].
        split; [by rewrite Hp, E1|]. eauto. }
    destruct Hstep as (st1 & E1 & Hc1 & Hcur1 & Hp1 & Ho1).
    destruct (IH (pre ++ [frame]) st1 Hc1 Hcur1 Hp1 (fun _ => Ho1)) as (st2 & E2 & Hp2).
    exists st2. split.
    + simpl. unfold mbind, M_bind. rewrite E1. exact E2.
    + by rewrite <- app_assoc in Hp2.
Qed.

End SegmenterWithoutEncoder.

(** X2: [split_video] opens its writers with 'avc1' only, with no fallback:
    on a host where that encoder does not open it still returns the
    [ceil(F / L)] segment paths, and leaves the file system as it was: none
    of the segment files is written. *)
Theorem split_video_without_avc1 {Frame} (h : host) (self : VideoProcessor)
    (fs : gmap string (@file Frame)) (v : video) :
  fs !! video_path self = Some (FVideo v) ->
  writer_opens h avc1 (v_fps v) (v_width v) (v_height v) = false ->
  1 <= frames_per_segment_of (v_fps v) self ->
  let n := Z.to_nat (frames_per_segment_of (v_fps v) self) in
  split_video h self fs
  = (fs, Ok (segment_path_of self <$> seq 0 (segments_after n (length (v_frames v))))).
Proof.
  intros Hv Henc HL n.
  assert (Hn : (0 < n)%nat) by (subst n; lia).
  destruct (split_loop_without_encoder h self (v_fps v) (v_width v) (v_height v) n Hn Henc
              fs (v_frames v) [] (mk_split 0 0 None []))
    as (st' & Eloop & Hp); simpl; rewrite ?segments_after_0; try done; try lia.
  unfold split_video, VideoCapture. mrun. unfold decode. rewrite Hv. simpl.
  unfold py_truediv. rewrite (py_int_nonzero _ _ HL). mrun.
  unfold segment_count_of, py_truediv. mrun.
  rewrite (inject_Z_nonzero _ HL). mrun.
  replace (frames_per_segment_of (v_fps v) self) with (Z.of_nat n) by (subst n; lia).
  rewrite Eloop. by rewrite Hp.
Qed.

(** ** More on the worker and on the sequential path *)

Arguments apply_filter : simpl never.

Section WorkerFacts.

Context {Frame : Type} `{!PixelTransforms Frame}.
Implicit Types fs : gmap string (@file Frame).

Lemma apply_filter_spec h self seg filter_type outp fs :
  apply_filter h self seg filter_type outp fs =
  if cap_opened (decode fs seg)
  then ((apply_filter_to_segment h (seg, filter_type, outp, 0%nat) fs).1, Ok tt)
  else (fs, Raise (Exception ("Could not open video: " +:+ seg))).
Proof.
  rewrite apply_filter_to_segment_spec. unfold apply_filter.
  erewrite bind_Ok by apply VideoCapture_run.
  destruct (cap_opened (decode fs seg)); [|done]. simpl.
  unfold encoder_opens_for.
  destruct (encoder_opens h _ _ _) eqn:Henc.
  - erewrite bind_Ok by (rewrite VideoWriter_with_fallback_spec, Henc; reflexivity).
    rewrite (write_transformed _ outp _ _ _ _ _ []) by apply lookup_insert_eq.
    rewrite insert_insert_eq. done.
  - erewrite bind_Ok by (rewrite VideoWriter_with_fallback_spec, Henc; reflexivity).
    rewrite write_closed. done.
Qed.

End WorkerFacts.


(** X4: [apply_filter], the sequential counterpart of the worker, writes the
    same output as the worker on a segment that opens, and differs on one
    that does not: it raises, and writes nothing, where the worker
    returns. *)
Theorem apply_filter_agrees_with_worker {Frame} `{!PixelTransforms Frame}
    (h : host) (self : VideoProcessor) (seg filter_type outp : string) (idx : nat)
    (fs : gmap string (@file Frame)) :
  if cap_opened (decode fs seg)
  then apply_filter h self seg filter_type outp fs
       = ((apply_filter_to_segment h (seg, filter_type, outp, idx) fs).1, Ok tt)
  else apply_filter h self seg filter_type outp fs
       = (fs, Raise (Exception ("Could not open video: " +:+ seg)))
       /\ (apply_filter_to_segment h (seg, filter_type, outp, idx) fs).2 = Ok outp.
Proof.
  rewrite apply_filter_spec, !apply_filter_to_segment_spec.
  destruct (cap_opened (decode fs seg)); done.
Qed.

Lemma seq_path_init vp d i :
  seq_path (init vp d) i = "outputs/seq_processed_" +:+ fmt03 i +:+ ".mp4".
Proof. reflexivity. Qed.

Lemma seq_path_inj vp d i j :
  seq_path (init vp d) i = seq_path (init vp d) j -> i = j.
Proof.
  rewrite !seq_path_init. intros H.
  apply (inj (String.app _)) in H.
  apply string_app_inv_tail in H. by apply fmt03_inj.
Qed.

Lemma segment_path_not_seq vp d i j :
  segment_path_of (init vp d) i ≠ seq_path (init vp d) j.
Proof. rewrite segment_path_of_init, seq_path_init. discriminate. Qed.

Section Sequential.

Context {Frame : Type} `{!PixelTransforms Frame}.
Implicit Types fs : gmap string (@file Frame).

Variables (h : host) (vp : string) (d : Q).
Variables (filter_type : string).
Variable fs0 : gmap string (@file Frame).

Let self := init vp d.

Lemma sequential_loop_spec rest : forall (done : list string) acc fs,
  (forall seg, seg ∈ rest -> cap_opened (decode fs0 seg) = true) ->
  (forall seg j, seg ∈ rest -> seg ≠ seq_path self j) ->
  (forall seg, seg ∈ rest -> encoder_opens_for h fs0 seg = true) ->
  acc = seq_path self <$> seq 0 (length done) ->
  (forall p, (forall j, p ≠ seq_path self j) -> fs !! p = fs0 !! p) ->
  (forall i seg, done !! i = Some seg ->
     fs !! seq_path self i = Some (FVideo (filtered_segment fs0 filter_type seg))) ->
  exists fs',
    sequential_loop h self filter_type (length done) rest acc fs
    = (fs', Ok (seq_path self <$> seq 0 (length (done ++ rest))))
    /\ (forall p, (forall j, p ≠ seq_path self j) -> fs' !! p = fs0 !! p)
    /\ (forall i seg, (done ++ rest) !! i = Some seg ->
          fs' !! seq_path self i = Some (FVideo (filtered_segment fs0 filter_type seg))).
Proof.
  induction rest as [|seg rest IH]; intros done acc fs Hopen Hapart Henc Hacc Hframe Hdone.
  - exists fs. rewrite app_nil_r. simpl. rewrite Hacc. done.
  - assert (Hin : seg ∈ seg :: rest) by apply list_elem_of_here.
    assert (Hdec : decode fs seg = decode fs0 seg).
    { unfold decode. rewrite Hframe; [done|]. intros j. by apply Hapart. }
    simpl. unfold mbind, M_bind.
    rewrite apply_filter_spec, apply_filter_to_segment_spec.
    unfold encoder_opens_for, filtered_segment. rewrite Hdec.
    fold (encoder_opens_for h fs0 seg). rewrite (Hopen seg Hin), (Henc seg Hin).
    fold (filtered_segment fs0 filter_type seg). simpl.
    destruct (IH (done ++ [seg]) (acc ++ [seq_path self (length done)])
                (<[seq_path self (length done) := FVideo (filtered_segment fs0 filter_type seg)]> fs))
      as (fs' & E & Hframe' & Hfiles').
    + intros s Hs. apply Hopen. by apply list_elem_of_further.
    + intros s j Hs. apply Hapart. by apply list_elem_of_further.
    + intros s Hs. apply Henc. by apply list_elem_of_further.
    + rewrite length_app. simpl. rewrite Nat.add_1_r, seq_S, fmap_app, Hacc. done.
    + intros p Hp. rewrite lookup_insert_ne by (apply not_eq_sym, Hp). by apply Hframe.
    + intros i s Hi. destruct (decide (i = length done)) as [->|Hne].
      * rewrite lookup_app_r, Nat.sub_diag in Hi by lia. injection Hi as <-.
        apply lookup_insert_eq.
      * assert (Hlt : (i < length done)%nat).
        { apply lookup_lt_Some in Hi. rewrite length_app in Hi. simpl in Hi. lia. }
        rewrite lookup_app_l in Hi by done.
        rewrite lookup_insert_ne; [by apply Hdone|].
        intros E. apply seq_path_inj in E. lia.
    + exists fs'. rewrite length_app in E. simpl in E. rewrite Nat.add_1_r in E.
      rewrite <- app_assoc in E, Hfiles'. simpl in E, Hfiles'. done.
Qed.

End Sequential.

(** X5: The sequential path and the pool give the same results: on segments
    that all open, [process_sequential] and [process_parallel], the latter
    under any order of completion, return their output paths in segment
    index order, and the file under the [i]-th path of the one decodes as
    the file under the [i]-th path of the other. *)
Theorem sequential_matches_parallel {Frame} `{!PixelTransforms Frame}
    (h : host) (order : list nat) (elapsed : Q) (vp : string) (d : Q)
    (segs : list string) (filter_type : string) (fs : gmap string (@file Frame)) :
  let self := init vp d in
  let n := length segs in
  1 <= cpu_count h ->
  order ≡ₚ seq 0 n ->
  (forall seg, seg ∈ segs -> cap_opened (decode fs seg) = true) ->
  (forall seg j, seg ∈ segs -> seg ≠ par_path self j) ->
  (forall seg j, seg ∈ segs -> seg ≠ seq_path self j) ->
  (forall seg, seg ∈ segs -> encoder_opens_for h fs seg = true) ->
  exists fs_seq fs_par,
    process_sequential h elapsed self segs filter_type fs
      = (fs_seq, Ok (seq_path self <$> seq 0 n, elapsed))
    /\ process_parallel (with_completion_order h order) self segs filter_type fs
      = (fs_par, Ok (par_path self <$> seq 0 n, measured_time h))
    /\ (forall i, (i < n)%nat ->
          decode fs_seq (seq_path self i) = decode fs_par (par_path self i))
    /\ frames_at fs_seq <$> (seq_path self <$> seq 0 n)
       = frames_at fs_par <$> (par_path self <$> seq 0 n).
Proof.
  intros self n Hcpu Hperm Hopen Hpar Hseq Henc.
  destruct (sequential_loop_spec h vp d filter_type fs segs [] [] fs Hopen Hseq Henc)
    as (fs_seq & Es & _ & Hs); try done.
  destruct (process_parallel_spec (with_completion_order h order) vp d segs filter_type fs
              Hpar Henc Hcpu Hperm) as (fs_par & Ep & _ & Hp).
  assert (Hsame : forall i, (i < n)%nat ->
            decode fs_seq (seq_path self i) = decode fs_par (par_path self i)).
  { intros i Hi. destruct (lookup_lt_is_Some_2 segs i Hi) as [seg Hseg].
    unfold decode. subst self. by rewrite (Hs i seg Hseg), (Hp i seg Hseg). }
  exists fs_seq, fs_par. split; [|split; [exact Ep|split; [exact Hsame|]]].
  - unfold process_sequential. simpl in Es. unfold mbind, M_bind.
    fold self in Es. rewrite Es. done.
  - apply list_eq. intros i. rewrite !list_lookup_fmap.
    destruct (seq 0 n !! i) as [j|] eqn:Hj; [|done]. simpl.
    apply lookup_seq in Hj as [-> Hi]. simpl.
    unfold frames_at. by rewrite Hsame.
Qed.

(** ** More on merging, on the audio sidecar and on clean-up *)

(** X6: [merge_segments] raises exactly when it is given no path; the file
    system is then as it was.  On every non-empty list it returns,
    whatever is or is not under the paths. *)
Theorem merge_segments_raises_iff_empty {Frame} (h : host) (paths : list string)
    (outp : string) (fs : gmap string (@file Frame)) :
  (paths = [] ->
     merge_segments h paths outp fs = (fs, Raise (Exception "No segments to merge")))
  /\ (paths ≠ [] -> exists fs', merge_segments h paths outp fs = (fs', Ok tt))
  /\ (raises (merge_segments h paths outp fs).2 <-> paths = []).
Proof.
  split; [by intros ->|]. split; [apply merge_segments_returns|].
  split.
  - intros [e He]. destruct paths as [|p rest]; [done|].
    destruct (merge_segments_returns h (p :: rest) outp fs) as [fs' E]; [done|].
    rewrite E in He. done.
  - intros ->. by eexists.
Qed.

Section SidecarFacts.

Context {Frame : Type}.
Implicit Types fs : gmap string (@file Frame).

Lemma extract_audio_spec h video_path audio_path fs :
  extract_audio h video_path audio_path fs =
  if audio_extractable h fs video_path
  then (<[audio_path := FAudio]> fs, Ok true)
  else (fs, Ok false).
Proof.
  unfold extract_audio, audio_extractable, try_except, probe_reports_audio, run_extract.
  destruct (ffprobe h); mrun; try done.
  destruct (fs !! video_path) as [[v| |]|]; mrun; try done;
    try (destruct (ffmpeg_extract h); done).
  destruct (v_audio v), (ffmpeg_extract h); mrun; done.
Qed.

End SidecarFacts.

Lemma string_app_eq_self (s t : string) : s +:+ t = s -> t = "".
Proof.
  induction s as [|c s IH]; simpl; [done|].
  intros H. injection H as H. by apply IH.
Qed.

Lemma temp_path_fresh (p : string) : p +:+ ".temp.mp4" ≠ p.
Proof. intros H. apply string_app_eq_self in H. discriminate. Qed.


(** The ways out of [merge_audio_with_video]. *)
Lemma merge_audio_with_video_cases {Frame} (h : host)
    (video_path audio_path output_path : string) (fs : gmap string (@file Frame)) :
  let temp_output := output_path +:+ ".temp.mp4" in
  exists fs' (merged : bool),
    merge_audio_with_video h video_path audio_path output_path fs = (fs', Ok merged)
    /\ (forall p, p ≠ output_path -> p ≠ temp_output -> fs' !! p = fs !! p)
    /\ (merged = false -> fs' !! output_path = fs !! output_path)
    /\ (merged = true ->
          fs' !! temp_output = None
          /\ exists v, fs !! video_path = Some (FVideo v)
             /\ fs !! audio_path = Some FAudio
             /\ fs' !! output_path
                = Some (FVideo (mk_video (v_fps v) (v_width v) (v_height v)
                                         (v_frame_count v) true (v_frames v)))).
Proof.
  intros temp_output.
  pose proof (temp_path_fresh output_path) as Hfresh. fold temp_output in Hfresh.
  unfold merge_audio_with_video, try_except, run_remux, path_exists, os_remove,
    shutil_move. fold temp_output.
  destruct (ffmpeg_remux h); mrun.
  - exists fs, false. done.
  - destruct (fs !! temp_output) eqn:Ht; mrun; rewrite ?Ht; mrun.
    + eexists _, false. split; [reflexivity|]. split; [|split; [|done]].
      * intros p _ Hp. by rewrite lookup_delete_ne.
      * intros _. by rewrite lookup_delete_ne.
    + exists fs, false. done.
  - destruct (fs !! video_path) as [[v| |]|] eqn:Hv; mrun;
      try (destruct (fs !! temp_output) eqn:Ht; mrun; rewrite ?Ht; mrun;
           [ eexists _, false; split; [reflexivity|]; split; [|split; [|done]];
             [ intros p _ Hp; by rewrite lookup_delete_ne
             | intros _; by rewrite lookup_delete_ne ]
           | exists fs, false; done ]).
    destruct (fs !! audio_path) as [[| |]|] eqn:Ha; mrun;
      try (destruct (fs !! temp_output) eqn:Ht; mrun; rewrite ?Ht; mrun;
           [ eexists _, false; split; [reflexivity|]; split; [|split; [|done]];
             [ intros p _ Hp; by rewrite lookup_delete_ne
             | intros _; by rewrite lookup_delete_ne ]
           | exists fs, false; done ]).
    rewrite lookup_insert_ne by done.
    destruct (fs !! output_path) eqn:Ho; mrun.
    + rewrite lookup_insert_ne, Ho by done. mrun.
      rewrite lookup_delete_ne, lookup_insert_eq by done. mrun.
      eexists _, true. split; [reflexivity|]. split; [|split; [done|]].
      * intros p Hp1 Hp2.
        by rewrite lookup_insert_ne, lookup_delete_ne, lookup_delete_ne, lookup_insert_ne.
      * intros _. split.
        -- by rewrite lookup_insert_ne, lookup_delete_eq.
        -- exists v. split; [done|]. split; [done|]. by rewrite lookup_insert_eq.
    + rewrite lookup_insert_eq. mrun.
      eexists _, true. split; [reflexivity|]. split; [|split; [done|]].
      * intros p Hp1 Hp2.
        by rewrite lookup_insert_ne, lookup_delete_ne, lookup_insert_ne.
      * intros _. split.
        -- by rewrite lookup_insert_ne, lookup_delete_eq.
        -- exists v. split; [done|]. split; [done|]. by rewrite lookup_insert_eq.
Qed.


Lemma cleanup_lookup {Frame} (self : VideoProcessor) (m : gmap string (@file Frame)) p :
  filter (fun kv => is_transient self kv.1 = false) m !! p
  = if is_transient self p then None else m !! p.
Proof.
  rewrite map_lookup_filter.
  destruct (m !! p) as [f|]; simpl; [|by destruct (is_transient self p)].
  destruct (is_transient self p) eqn:E.
  - rewrite option_guard_False; [done|]. simpl. congruence.
  - by rewrite option_guard_True.
Qed.

(** X9: [cleanup_segments] raises nothing and removes exactly the transient
    files, leaving every other file as it was.  For a processor as
    [VideoProcessor(...)] builds it, the transient files include every
    segment file, every per-segment result of the sequential and of the
    parallel path and the extracted audio; the uploads are not among
    them. *)
Theorem cleanup_segments_removes_transients {Frame} (self : VideoProcessor)
    (fs : gmap string (@file Frame)) :
  exists fs',
    cleanup_segments self fs = (fs', Ok tt)
    /\ (forall p, fs' !! p = if is_transient self p then None else fs !! p)
    /\ cleanup_segments self fs' = (fs', Ok tt)
    /\ (forall vp d, self = init vp d ->
          (forall i, fs' !! segment_path_of self i = None
                     /\ fs' !! par_path self i = None
                     /\ fs' !! seq_path self i = None)
          /\ fs' !! path_join (segments_dir self) "original_audio.aac" = None
          /\ (forall name, fs' !! ("uploads/" +:+ name) = fs !! ("uploads/" +:+ name))).
Proof.
  pose proof (cleanup_lookup (Frame:=Frame) self) as Hlook.
  eexists. split; [reflexivity|]. split; [exact (Hlook fs)|]. split.
  - unfold cleanup_segments. mrun. f_equal.
    apply map_eq. intros p. rewrite !Hlook. by destruct (is_transient self p).
  - intros vp d ->. split; [|split].
    + intros i. rewrite !Hlook. done.
    + rewrite Hlook. done.
    + intros name. rewrite Hlook. done.
Qed.

(** One catalog, written twice. *)
Lemma filter_catalogs_same {Frame} `{!PixelTransforms Frame} (filter_type : string) :
  bool_decide (filter_type ∈ valid_filters)
  = bool_decide (is_Some (dict_get (FILTERS (Frame:=Frame)) filter_type))
  /\ get_available_filters (Frame:=Frame) = valid_filters.
Proof.
  split; [|reflexivity].
  unfold FILTERS, valid_filters. simpl.
  repeat match goal with
         | |- context [String.eqb filter_type ?k] =>
             destruct (String.eqb_spec filter_type k) as [->|?]; [done|]
         end.
  apply bool_decide_ext. split.
  - intros Hin. repeat (apply elem_of_cons in Hin as [->|Hin]; [done|]).
    by apply elem_of_nil in Hin.
  - intros [? [=]].
Qed.

(** X10: The catalog that [start_processing] checks a request against and the
    catalog that [process_video] checks its argument against are the same:
    a filter name passes the one check exactly when it passes the other,
    and the two lists of names are equal. *)
Theorem filter_catalogs_agree {Frame} `{!PixelTransforms Frame} (filter_type : string) :
  bool_decide (filter_type ∈ valid_filters)
  = bool_decide (is_Some (dict_get (FILTERS (Frame:=Frame)) filter_type))
  /\ get_available_filters (Frame:=Frame) = valid_filters.
Proof. apply filter_catalogs_same. Qed.

(** ** Analytics *)

Arguments get_video_analytics : simpl never.

(** The two branches of [get_video_analytics]. *)
Lemma get_video_analytics_cases {Frame} (size : option Z) (self : VideoProcessor)
    (fs : gmap string (@file Frame)) :
  let cap := decode fs (video_path self) in
  exists a,
    get_video_analytics size self fs = (fs, Ok a)
    /\ has_audio a = false
    /\ (cap_opened cap = false \/ size = None ->
          aspect_ratio a = "Unknown" /\ a_duration a = 0%Q /\ a_fps a = 0%Q
          /\ a_width a = 0 /\ a_height a = 0 /\ total_frames a = 0
          /\ bitrate_mbps a = 0%Q)
    /\ (Qpositive (cap_fps cap) = false ->
          (a_duration a == 0)%Q /\ bitrate_mbps a = 0%Q)
    /\ (cap_opened cap = true -> size ≠ None ->
          a_width a = cap_width cap /\ a_height a = cap_height cap
          /\ total_frames a = cap_frame_count cap
          /\ a_fps a = round2 (cap_fps cap)).
Proof.
  intros cap. unfold get_video_analytics, try_except, VideoCapture, os_path_getsize.
  mrun. fold cap.
  destruct (cap_opened cap) eqn:Hopen; simpl.
  - destruct size as [z|]; mrun.
    + eexists. split; [reflexivity|]. simpl. split; [done|]. split; [|split; [|done]].
      * intros [?|?]; done.
      * intros Hfps. rewrite Hfps. split; reflexivity.
    + eexists. split; [reflexivity|]. simpl. split; [done|]. split; [done|].
      split; [done|]. intros _ Hne. done.
  - destruct size as [z|]; mrun;
      (eexists; split; [reflexivity|]; simpl; split; [done|]; split; [done|];
       split; [done|]; intros ?; done).
Qed.

(** X11: [get_video_analytics] raises nothing, writes nothing and never reports
    an audio stream.  When the video does not open, or its size cannot be
    read, it answers with the all-zero dictionary whose aspect ratio is
    'Unknown'.  A frame rate that is not positive gives a duration and a
    bit rate of zero instead of a division by zero. *)
Theorem get_video_analytics_total {Frame} (size : option Z) (self : VideoProcessor)
    (fs : gmap string (@file Frame)) :
  let cap := decode fs (video_path self) in
  exists a,
    get_video_analytics size self fs = (fs, Ok a)
    /\ has_audio a = false
    /\ (cap_opened cap = false \/ size = None ->
          aspect_ratio a = "Unknown" /\ a_duration a = 0%Q /\ a_fps a = 0%Q
          /\ a_width a = 0 /\ a_height a = 0 /\ total_frames a = 0
          /\ bitrate_mbps a = 0%Q)
    /\ (Qpositive (cap_fps cap) = false ->
          (a_duration a == 0)%Q /\ bitrate_mbps a = 0%Q)
    /\ (cap_opened cap = true -> size ≠ None ->
          a_width a = cap_width cap /\ a_height a = cap_height cap
          /\ total_frames a = cap_frame_count cap
          /\ a_fps a = round2 (cap_fps cap)).
Proof. apply get_video_analytics_cases. Qed.

(** ** The pipeline as a whole *)

Section EndToEnd.

Context {Frame : Type} `{!PixelTransforms Frame}.
Implicit Types fs : gmap string (@file Frame).

(** [split_video] on a good source, with what it leaves on disk. *)
Lemma split_video_spec h vp d fs (v : video) :
  fs !! vp = Some (FVideo v) ->
  writer_opens h avc1 (v_fps v) (v_width v) (v_height v) = true ->
  1 <= py_int (v_fps v * d) ->
  let self := init vp d in
  let n := Z.to_nat (py_int (v_fps v * d)) in
  let m := segments_after n (length (v_frames v)) in
  exists fs1,
    split_video h self fs = (fs1, Ok (segment_path_of self <$> seq 0 m))
    /\ (forall j, (j < m)%nat ->
          fs1 !! segment_path_of self j
          = Some (FVideo (written_video (v_fps v) (v_width v) (v_height v)
                                        (chunk n j (v_frames v)))))
    /\ (forall p, (forall j, p ≠ segment_path_of self j) -> fs1 !! p = fs !! p).
Proof.
  intros Hv Henc HL self n m.
  assert (Hn : (0 < n)%nat) by (subst n; lia).
  destruct (split_loop_inv h vp d (v_fps v) (v_width v) (v_height v) n Hn Henc
              fs (v_frames v) [] fs (mk_split 0 0 None [])
              (split_inv_init vp d (v_fps v) (v_width v) (v_height v) n Hn fs))
    as (fs1 & st' & Eloop & Hinv).
  simpl in Hinv. destruct Hinv as [_ _ Hp _ Hf Hothers].
  exists fs1. split; [|split; [exact Hf|exact Hothers]].
  subst self. unfold split_video, VideoCapture. mrun. unfold decode. rewrite Hv. simpl.
  unfold py_truediv. rewrite (py_int_nonzero _ _ HL). mrun.
  unfold segment_count_of, py_truediv. mrun.
  change (frames_per_segment_of (v_fps v) (init vp d)) with (py_int (v_fps v * d)).
  rewrite (inject_Z_nonzero _ HL). mrun.
  replace (py_int (v_fps v * d)) with (Z.of_nat n) by (subst n; lia).
  rewrite Eloop. by rewrite Hp.
Qed.

Lemma concat_fmap_chunks (f : Frame -> Frame) n m (l : list Frame) :
  concat ((fun j => f <$> chunk n j l) <$> seq 0 m) = f <$> take (m * n) l.
Proof.
  induction m as [|m IH]; [done|].
  rewrite seq_S, fmap_app, concat_app, IH. simpl.
  rewrite app_nil_r, <- fmap_app. unfold chunk.
  rewrite take_take_drop. do 2 f_equal. lia.
Qed.

Lemma pool_run_no_tasks {A R} (f : A -> M (gmap string (@file Frame)) R) order :
  forall filed fs, pool_run f [] order filed fs = (fs, Ok filed).
Proof. induction order as [|i later IH]; intros filed fs; [done|]. simpl. apply IH. Qed.

Lemma process_parallel_no_segments h self filter_type fs :
  1 <= cpu_count h ->
  process_parallel h self [] filter_type fs = (fs, Ok ([], measured_time h)).
Proof.
  intros Hcpu. unfold process_parallel.
  destruct (cpu_count h <? 1) eqn:Hc; [apply Z.ltb_lt in Hc; lia|].
  unfold pool_map. simpl. unfold mbind, M_bind.
  change (args_list_of self [] filter_type) with (@nil (string * string * string * nat)).
  rewrite pool_run_no_tasks. done.
Qed.

End EndToEnd.

Arguments process_video : simpl never.
Arguments estimate : simpl never.

(** [process_video] on a good input, step by step. *)
Lemma process_video_run {Frame} `{!PixelTransforms Frame}
    (h : host) (vp : string) (d : Q) (filter_type output_filename : string)
    (fs : gmap string (@file Frame)) (v : video) :
  let self := init vp d in
  let outp := path_join (output_dir self) output_filename in
  let n := Z.to_nat (py_int (v_fps v * d)) in
  let m := segments_after n (length (v_frames v)) in
  is_Some (dict_get FILTERS filter_type) ->
  fs !! vp = Some (FVideo v) ->
  is_transient self vp = false ->
  1 <= py_int (v_fps v * d) ->
  v_frames v ≠ [] ->
  writer_opens h avc1 (v_fps v) (v_width v) (v_height v) = true ->
  1 <= cpu_count h ->
  completion_order h ≡ₚ seq 0 m ->
  is_transient self outp = false ->
  exists fs' result,
    process_video h self filter_type output_filename fs = (fs', Ok (Success result))
    /\ output_path result = outp
    /\ segments_processed result = Z.of_nat m
    /\ cpu_cores_used result = cpu_count h
    /\ audio_preserved result = audio_extractable h fs vp
    /\ frames_at fs' outp = get_filter_function filter_type <$> v_frames v
    /\ cap_fps (decode fs' outp) = v_fps v
    /\ cap_width (decode fs' outp) = v_width v
    /\ cap_height (decode fs' outp) = v_height v
    /\ (forall p, is_transient self p = true -> fs' !! p = None)
    /\ (forall p, is_transient self p = false -> p ≠ outp -> p ≠ outp +:+ ".temp.mp4" ->
          fs' !! p = fs !! p).
Proof.
  intros SELF outp n m Hfilter Hv Hvp HL Hframes Henc Hcpu Hperm Houtp.
  subst SELF.
  set (audio := path_join (segments_dir (init vp d)) "original_audio.aac").
  set (f := get_filter_function filter_type).
  assert (Hn : (0 < n)%nat) by (subst n; lia).
  assert (Hm : (0 < m)%nat).
  { pose proof (segments_after_cover n (length (v_frames v)) Hn) as Hc. fold m in Hc.
    destruct (v_frames v); [done|]. simpl in Hc. lia. }
  assert (Hcover : (length (v_frames v) <= m * n)%nat)
    by apply (segments_after_cover n _ Hn).
  (* path facts *)
  assert (Haudio_tr : is_transient (init vp d) audio = true) by reflexivity.
  assert (Hseg_tr : forall j, is_transient (init vp d) (segment_path_of (init vp d) j) = true)
    by (intros j; reflexivity).
  assert (Hpar_tr : forall j, is_transient (init vp d) (par_path (init vp d) j) = true)
    by (intros j; reflexivity).
  assert (Hvp_audio : vp ≠ audio) by (intros E; rewrite E in Hvp; congruence).
  assert (Hout_audio : outp ≠ audio) by (intros E; rewrite E in Houtp; congruence).
  assert (Hout_par : forall j, outp ≠ par_path (init vp d) j).
  { intros j E. rewrite E, Hpar_tr in Houtp. done. }
  assert (Hout_seg : forall j, outp ≠ segment_path_of (init vp d) j).
  { intros j E. rewrite E, Hseg_tr in Houtp. done. }
  assert (Haudio_seg : forall j, audio ≠ segment_path_of (init vp d) j).
  { intros j. unfold audio. rewrite segment_path_of_init. discriminate. }
  assert (Haudio_par : forall j, audio ≠ par_path (init vp d) j).
  { intros j. unfold audio. rewrite par_path_init. discriminate. }
  (* Step 0 *)
  set (ext := audio_extractable h fs vp).
  set (fsA := if ext then <[audio := FAudio]> fs else fs).
  assert (E0 : extract_audio h (video_path (init vp d)) audio fs = (fsA, Ok ext)).
  { rewrite extract_audio_spec. subst fsA ext. simpl.
    by destruct (audio_extractable h fs vp). }
  assert (HA : forall p, p ≠ audio -> fsA !! p = fs !! p).
  { intros p Hp. subst fsA. destruct ext; [|done]. by rewrite lookup_insert_ne. }
  assert (HAaudio : ext = true -> fsA !! audio = Some FAudio).
  { intros E. subst fsA. rewrite E. apply lookup_insert_eq. }
  (* Step 1 *)
  assert (HvA : fsA !! vp = Some (FVideo v)) by (rewrite HA; done).
  destruct (split_video_spec h vp d fsA v HvA Henc HL) as (fs1 & E1 & Hfiles1 & Hothers1).
  fold n m in E1, Hfiles1, Hothers1.
  set (segs := segment_path_of (init vp d) <$> seq 0 m) in *.
  assert (Hlen : length segs = m) by (subst segs; by rewrite length_fmap, length_seq).
  assert (Hsegs : forall i seg, segs !! i = Some seg ->
            seg = segment_path_of (init vp d) i /\ (i < m)%nat).
  { intros i seg Hi. subst segs. apply list_lookup_fmap_Some in Hi as (j & -> & Hj).
    apply lookup_seq in Hj as [-> ?]. done. }
  assert (Hsegs_in : forall seg, seg ∈ segs -> exists j, seg = segment_path_of (init vp d) j /\ (j < m)%nat).
  { intros seg Hin. apply list_elem_of_lookup in Hin as [i Hi].
    destruct (Hsegs i seg Hi). eauto. }
  (* Step 2 *)
  destruct (process_parallel_spec h vp d segs filter_type fs1) as (fs2 & E2 & Hothers2 & Hfiles2).
  { intros seg j Hin. destruct (Hsegs_in seg Hin) as (i & -> & _).
    apply segment_path_not_par. }
  { intros seg Hin. destruct (Hsegs_in seg Hin) as (i & -> & Hi).
    unfold encoder_opens_for. rewrite (decode_written _ _ _ _ _ _ (Hfiles1 i Hi)). simpl.
    unfold encoder_opens. by rewrite Henc. }
  { done. }
  { by rewrite Hlen. }
  rewrite Hlen in E2.
  assert (Hpar : forall i, (i < m)%nat ->
            decode fs2 (par_path (init vp d) i)
            = mk_capture true (v_fps v) (v_width v) (v_height v)
                (Z.of_nat (length (f <$> chunk n i (v_frames v))))
                (f <$> chunk n i (v_frames v))).
  { intros i Hi. apply decode_written.
    rewrite (Hfiles2 i (segment_path_of (init vp d) i)).
    - unfold filtered_segment. rewrite (decode_written _ _ _ _ _ _ (Hfiles1 i Hi)). done.
    - subst segs. rewrite list_lookup_fmap, lookup_seq_lt by done. done. }
  (* Step 3 *)
  set (pars := par_path (init vp d) <$> seq 0 m) in *.
  assert (Hnotin : outp ∉ pars).
  { intros Hin. apply list_elem_of_fmap in Hin as (j & E & _). by apply (Hout_par j). }
  pose proof (merge_segments_spec h pars outp fs2 Hnotin) as E3.
  assert (Hpars : pars = par_path (init vp d) 0%nat :: (par_path (init vp d) <$> seq 1 (m - 1))).
  { subst pars. destruct m; [lia|]. simpl. by rewrite Nat.sub_0_r. }
  rewrite Hpars in E3 at 2. cbv zeta in E3. rewrite (Hpar 0%nat Hm) in E3. simpl in E3.
  assert (Hopen : encoder_opens h (v_fps v) (v_width v) (v_height v) = true)
    by (unfold encoder_opens; by rewrite Henc).
  rewrite Hopen in E3.
  assert (Hmerged : concat (frames_at fs2 <$> pars) = f <$> v_frames v).
  { transitivity (concat ((fun j => f <$> chunk n j (v_frames v)) <$> seq 0 m)).
    - f_equal. subst pars. rewrite <- list_fmap_compose.
      apply list_fmap_ext. intros i j Hj. apply lookup_seq in Hj as [-> Hi]. simpl.
      unfold frames_at. by rewrite (Hpar i Hi).
    - rewrite concat_fmap_chunks, take_ge by done. done. }
  rewrite Hmerged in E3.
  set (merged := written_video (v_fps v) (v_width v) (v_height v) (f <$> v_frames v)) in *.
  set (fs3 := <[outp := FVideo merged]> fs2) in *.
  (* Step 4 *)
  assert (H3audio : fs3 !! audio = fsA !! audio).
  { subst fs3. rewrite lookup_insert_ne by done.
    rewrite Hothers2 by apply Haudio_par. by rewrite Hothers1 by apply Haudio_seg. }
  set (ex := bool_decide (is_Some (fs3 !! audio))).
  assert (Epe : path_exists audio fs3 = (fs3, Ok ex)) by reflexivity.
  assert (E4 : exists fs4 (v4 : video),
            (if ext && ex
             then _ ← merge_audio_with_video h outp audio outp; mret tt
             else mret tt) fs3 = (fs4, Ok tt)
            /\ fs4 !! outp = Some (FVideo v4)
            /\ v_frames v4 = f <$> v_frames v
            /\ v_fps v4 = v_fps v /\ v_width v4 = v_width v /\ v_height v4 = v_height v
            /\ (forall p, p ≠ outp -> p ≠ outp +:+ ".temp.mp4" -> fs4 !! p = fs3 !! p)).
  { subst ex. rewrite H3audio.
    destruct ext eqn:Hext.
    - rewrite (HAaudio eq_refl). simpl. unfold mbind, M_bind.
      destruct (merge_audio_with_video_cases h outp audio outp fs3)
        as (fs4 & b & Erun & Hframe & Hfalse & Htrue).
      rewrite Erun. destruct b.
      + destruct (Htrue eq_refl) as (_ & v3 & Hv3 & _ & Hout).
        assert (v3 = merged).
        { subst fs3. rewrite lookup_insert_eq in Hv3. by injection Hv3. }
        subst v3. eexists fs4, _. split; [done|]. split; [exact Hout|]. done.
      + exists fs4, merged. split; [done|]. split.
        * rewrite (Hfalse eq_refl). subst fs3. apply lookup_insert_eq.
        * done.
    - simpl. exists fs3, merged. split; [done|]. split; [apply lookup_insert_eq|]. done. }
  destruct E4 as (fs4 & v4 & E4 & Hout4 & Hfr4 & Hfps4 & Hw4 & Hh4 & Hframe4).
  (* Assemble *)
  assert (Hbody : exists result,
    process_video h (init vp d) filter_type output_filename fs
      = (filter (fun kv => is_transient (init vp d) kv.1 = false) fs4, Ok (Success result))
    /\ output_path result = outp
    /\ segments_processed result = Z.of_nat m
    /\ cpu_cores_used result = cpu_count h
    /\ audio_preserved result = ext).
  { eexists. split; [|shelve].
    unfold process_video, try_except.
    rewrite bool_decide_eq_true_2 by done. cbn [negb].
    fold audio.
    erewrite bind_Ok by exact E0. cbv beta.
    erewrite bind_Ok by exact E1. cbv beta.
    erewrite bind_Ok by exact E2. cbv beta iota.
    fold outp.
    erewrite bind_Ok by exact E3. cbv beta.
    erewrite bind_Ok by exact Epe. cbv beta.
    erewrite bind_Ok by exact E4. cbv beta.
    unfold estimate. cbv zeta. unfold cleanup_segments. mrun.
    reflexivity.
    Unshelve.
    cbn [output_path segments_processed cpu_cores_used audio_preserved].
    rewrite Hlen. done. }
  destruct Hbody as (result & Erun & Ho & Hs & Hc & Ha).
  eexists _, result. split; [exact Erun|].
  split; [exact Ho|]. split; [exact Hs|]. split; [exact Hc|]. split; [exact Ha|].
  assert (Hout5 : filter (fun kv => is_transient (init vp d) kv.1 = false) fs4 !! outp
                  = Some (FVideo v4)).
  { by rewrite cleanup_lookup, Houtp. }
  unfold frames_at, decode. rewrite Hout5. simpl.
  split; [done|]. split; [done|]. split; [done|]. split; [done|]. split.
  - intros p Hp. by rewrite cleanup_lookup, Hp.
  - intros p Hp Hp1 Hp2. rewrite cleanup_lookup, Hp.
    rewrite Hframe4 by done. subst fs3. rewrite lookup_insert_ne by done.
    rewrite Hothers2.
    2: { intros j E. rewrite E, Hpar_tr in Hp. done. }
    rewrite Hothers1.
    2: { intros j E. rewrite E, Hseg_tr in Hp. done. }
    apply HA. intros E. rewrite E in Hp. congruence.
Qed.


(** X13: A filter name outside the catalog stops [process_video] before it
    touches anything: the result is a failure dictionary whose message
    names the filter and lists the catalog, and the file system is as it
    was. *)
Theorem process_video_unknown_filter {Frame} `{!PixelTransforms Frame}
    (h : host) (self : VideoProcessor) (filter_type output_filename : string)
    (fs : gmap string (@file Frame)) :
  dict_get (FILTERS (Frame:=Frame)) filter_type = None ->
  process_video h self filter_type output_filename fs
  = (fs, Ok (Failure ("Unknown filter: " +:+ filter_type +:+
       ". Available: ['grayscale', 'blur', 'sepia', 'brightness', 'contrast', " +:+
       "'saturation', 'warm_tone', 'cool_tone', 'edge_detection']"))).
Proof.
  intros Hnone. unfold process_video, try_except.
  rewrite bool_decide_eq_false_2 by (rewrite Hnone; by intros [? ?]).
  simpl. done.
Qed.



(** ** File names *)

Lemma rfind_from_app c a b : forall i last,
  rfind_from c (a +:+ b) i last
  = rfind_from c b (i + Z.of_nat (String.length a)) (rfind_from c a i last).
Proof.
  induction a as [|x a IH]; intros i last.
  - simpl. f_equal. lia.
  - change (String x a +:+ b) with (String x (a +:+ b)).
    cbn [rfind_from String.length]. rewrite IH. f_equal. lia.
Qed.

Lemma rfind_from_bounds c s : forall i last,
  rfind_from c s i last = last \/ i <= rfind_from c s i last.
Proof.
  induction s as [|x s IH]; intros i last; simpl; [by left|].
  destruct (Ascii.eqb x c).
  - right. destruct (IH (i + 1) i) as [->|H]; lia.
  - destruct (IH (i + 1) last) as [->|H]; [by left|right; lia].
Qed.

Lemma rfind_from_absent c s : forall i last,
  ~ In c (list_ascii_of_string s) -> rfind_from c s i last = last.
Proof.
  induction s as [|x s IH]; intros i last Hin; simpl in *; [done|].
  destruct (Ascii.eqb_spec x c) as [->|Hne]; [tauto|]. apply IH. tauto.
Qed.

Lemma rfind_from_present c s : forall i last,
  In c (list_ascii_of_string s) -> i <= rfind_from c s i last.
Proof.
  induction s as [|x s IH]; intros i last Hin; simpl in *; [done|].
  destruct (Ascii.eqb_spec x c) as [->|Hne].
  - destruct (rfind_from_bounds c s (i + 1) i) as [->|H]; lia.
  - destruct Hin as [?|Hin]; [done|]. specialize (IH (i + 1) last Hin). lia.
Qed.

Lemma rfind_absent c s : rfind c s = -1 -> ~ In c (list_ascii_of_string s).
Proof.
  intros H Hin. pose proof (rfind_from_present c s 0 (-1) Hin) as Hle.
  unfold rfind in H. lia.
Qed.

Lemma substring_app_head a b :
  String.substring 0 (String.length a) (a +:+ b) = a.
Proof. induction a as [|x a IH]; simpl; [by destruct b|]. by rewrite IH. Qed.

Lemma substring_whole b : String.substring 0 (String.length b) b = b.
Proof. induction b as [|y b IHb]; simpl; [done|]. by rewrite IHb. Qed.

Lemma substring_app_tail a b :
  String.substring (String.length a) (String.length b) (a +:+ b) = b.
Proof. induction a as [|x a IH]; simpl; [apply substring_whole|done]. Qed.

Lemma string_length_app a b :
  String.length (a +:+ b) = (String.length a + String.length b)%nat.
Proof. induction a as [|x a IH]; simpl; [done|]. by rewrite IH. Qed.

(** [splitext] on a plain name: a stem that starts with neither a dot nor
    a separator and has no separator in it, then a dot and a suffix with
    neither in it. *)
Lemma splitext_plain (a : ascii) (r e : string) :
  a ≠ "."%char -> a ≠ "/"%char ->
  rfind "/"%char r = -1 -> rfind "."%char e = -1 -> rfind "/"%char e = -1 ->
  splitext (String a r +:+ "." +:+ e) = (String a r, "." +:+ e).
Proof.
  intros Hdot Hsep Hr He1 He2.
  apply rfind_absent in Hr, He1, He2.
  set (stem := String a r). set (p := stem +:+ "." +:+ e).
  assert (Hsepi : rfind "/"%char p = -1).
  { unfold rfind, p. rewrite rfind_from_app.
    replace (rfind_from "/"%char stem 0 (-1)) with (-1).
    - change ("." +:+ e) with (String "."%char e). cbn [rfind_from].
      change (Ascii.eqb "." "/") with false. cbv iota.
      by apply rfind_from_absent.
    - symmetry. apply rfind_from_absent. unfold stem. simpl. intros [?|?]; [|done].
      by apply Hsep. }
  assert (Hdoti : rfind "."%char p = Z.of_nat (String.length stem)).
  { unfold rfind, p. rewrite rfind_from_app.
    change ("." +:+ e) with (String "."%char e). cbn [rfind_from].
    change (Ascii.eqb "." ".") with true. cbv iota.
    rewrite rfind_from_absent by done. lia. }
  unfold splitext. fold p. rewrite Hsepi, Hdoti.
  destruct (Z.ltb_spec (-1) (Z.of_nat (String.length stem))) as [_|?]; [|lia].
  assert (Hlen : String.length p = S (String.length r + S (String.length e))).
  { unfold p, stem. rewrite string_length_app. simpl. done. }
  rewrite Hlen. cbn [splitext_scan].
  change (-1 + 1) with 0.
  destruct (Z.ltb_spec 0 (Z.of_nat (String.length stem))) as [_|H];
    [|unfold stem in H; simpl in H; lia].
  change (String.get (Z.to_nat 0) p) with (Some a). cbv beta iota.
  destruct (Ascii.eqb a "."%char) eqn:Ea; [by apply Ascii.eqb_eq in Ea|].
  rewrite Nat2Z.id. f_equal.
  - apply substring_app_head.
  - replace (String.length p - String.length stem)%nat
      with (String.length ("." +:+ e)); [apply substring_app_tail|].
    rewrite Hlen. unfold stem. change ("." +:+ e) with (String "."%char e). cbn [String.length]. lia.
Qed.

Lemma lower_mp4_plain e :
  lower e = "mp4" -> rfind "."%char e = -1 /\ rfind "/"%char e = -1.
Proof.
  destruct e as [|c1 [|c2 [|c3 [|c4 e]]]]; try done. simpl.
  intros H. injection H as H1 H2 H3.
  assert (Hc : forall c x, lower_char c = x -> x ≠ "."%char -> x ≠ "/"%char ->
                           Ascii.eqb c "." = false /\ Ascii.eqb c "/" = false).
  { intros c x Hx Hd Hs. split.
    - destruct (Ascii.eqb_spec c ".") as [->|]; [|done]. by vm_compute in Hx.
    - destruct (Ascii.eqb_spec c "/") as [->|]; [|done]. by vm_compute in Hx. }
  destruct (Hc _ _ H1) as [E1 E1']; [done..|].
  destruct (Hc _ _ H2) as [E2 E2']; [done..|].
  destruct (Hc _ _ H3) as [E3 E3']; [done..|].
  unfold rfind. simpl. by rewrite E1, E2, E3, E1', E2', E3'.
Qed.

Lemma lower_app a b : lower (a +:+ b) = lower a +:+ lower b.
Proof. induction a as [|x a IH]; simpl; [done|]. by rewrite IH. Qed.

(** The two checks of [validate_video_file], in the order the code makes
    them: the suffix first, the size second. *)
Lemma validate_video_file_cases {Frame} (filename : string) (file_size : Z)
    (st : @state Frame) :
  validate_video_file filename file_size st
  = (st, if bool_decide (lower (splitext filename).2 = ".mp4") then
           if file_size <=? 104857600
           then Ok true
           else Raise (HTTPException 400 "File too large. Maximum size is 100MB")
         else Raise (HTTPException 400 "Invalid file type. Only .mp4 allowed")).
Proof.
  unfold validate_video_file.
  assert (Hin : bool_decide (lower (splitext filename).2 ∈ ALLOWED_EXTENSIONS)
                = bool_decide (lower (splitext filename).2 = ".mp4")).
  { apply bool_decide_ext. unfold ALLOWED_EXTENSIONS. rewrite list_elem_of_singleton. done. }
  rewrite Hin. destruct (bool_decide (_ = _)); cbn [negb]; [|reflexivity].
  change MAX_FILE_SIZE with 104857600.
  rewrite Z.ltb_antisym. destruct (file_size <=? 104857600); reflexivity.
Qed.

(** X16: [validate_video_file] never changes the service. It rejects a name
    whose suffix is not [.mp4] in some mix of case with 'Invalid file type.
    Only .mp4 allowed', whatever the size; a name with the right suffix and
    more than 100 MiB with 'File too large. Maximum size is 100MB'; and
    returns [True] for the rest. *)
Theorem validate_video_file_outcomes {Frame} (filename : string) (file_size : Z)
    (st : @state Frame) :
  validate_video_file filename file_size st
  = (st, if bool_decide (lower (splitext filename).2 = ".mp4") then
           if file_size <=? 104857600
           then Ok true
           else Raise (HTTPException 400 "File too large. Maximum size is 100MB")
         else Raise (HTTPException 400 "Invalid file type. Only .mp4 allowed")).
Proof. apply validate_video_file_cases. Qed.

Lemma validate_accepts {Frame} (a : ascii) (r e : string) (file_size : Z)
    (st : @state Frame) :
  a ≠ "."%char -> a ≠ "/"%char -> rfind "/"%char r = -1 ->
  lower e = "mp4" -> file_size <= MAX_FILE_SIZE ->
  validate_video_file (String a r +:+ "." +:+ e) file_size st = (st, Ok true).
Proof.
  intros Hdot Hsep Hr He Hsize.
  destruct (lower_mp4_plain e He) as [He1 He2].
  rewrite validate_video_file_cases, splitext_plain by done.
  cbn [snd]. rewrite lower_app, He.
  rewrite bool_decide_eq_true_2 by done.
  destruct (Z.leb_spec file_size 104857600) as [_|H]; [done|].
  unfold MAX_FILE_SIZE in Hsize. lia.
Qed.

(** X17: A plain file name with the suffix [mp4] in any mix of upper and lower
    case is valid up to 100 MiB: the stem may hold dots, provided it has no
    separator and starts with neither a dot nor a separator. *)
Theorem validate_accepts_mp4_in_any_case {Frame} (a : ascii) (r e : string)
    (file_size : Z) (st : @state Frame) :
  a ≠ "."%char -> a ≠ "/"%char -> rfind "/"%char r = -1 ->
  lower e = "mp4" -> file_size <= MAX_FILE_SIZE ->
  validate_video_file (String a r +:+ "." +:+ e) file_size st = (st, Ok true).
Proof. apply validate_accepts. Qed.

Lemma validate_accepts_mp4_in_any_case_witness :
  validate_video_file "my.Clip.Mp4" 2048 service_after_upload
  = (service_after_upload, Ok true).
Proof.
  apply (validate_accepts_mp4_in_any_case "m" "y.Clip" "Mp4" 2048 service_after_upload).
  - done.
  - done.
  - reflexivity.
  - reflexivity.
  - vm_compute. discriminate.
Defined.

(** ** More of the job service *)

Arguments validate_video_file : simpl never.
Arguments write_upload : simpl never.
Arguments process_in_background_from : simpl never.

Section ServiceMore.

Context {Frame : Type} `{!PixelTransforms Frame}.
Implicit Types st : @state Frame.

Lemma save_jobs_eq st : save_jobs st = (saved st, Ok tt).
Proof. unfold save_jobs, saved. mrun. by destruct (jobs_file_writable st). Qed.

Lemma startup_eq st :
  startup st
  = (set_jobs (match jobs_file st with Holds d => d | _ => ∅ end) st, Ok tt).
Proof.
  unfold startup, load_jobs, json_load. mrun.
  destruct st as [j f w d t]. simpl. by destruct f.
Qed.

Lemma remove_if_exists_eq (p : string) st :
  remove_if_exists (Some p) st = (set_disk (delete p (disk st)) st, Ok tt).
Proof.
  unfold remove_if_exists, on_disk, path_exists, os_remove. mrun.
  destruct (disk st !! p) as [x|] eqn:Hp.
  - rewrite bool_decide_eq_true_2 by done. mrun. by rewrite Hp.
  - rewrite bool_decide_eq_false_2 by (by intros [? ?]). mrun.
    rewrite delete_id by done. by destruct st.
Qed.

Lemma cleanup_job_cases job_id st :
  match jobs st !! job_id with
  | None => cleanup_job job_id st = (st, Raise (HTTPException 404 "Job not found"))
  | Some job =>
      cleanup_job job_id st
      = (saved (set_jobs (delete job_id (jobs st))
                  (set_disk (from_option delete id (j_output_path job)
                               (delete (file_path job) (disk st))) st)),
         Ok "Job cleaned up successfully")
  end.
Proof.
  unfold cleanup_job.
  erewrite bind_Ok by reflexivity. cbv beta.
  destruct (jobs st !! job_id) as [job|] eqn:Hjob; [|done].
  erewrite bind_Ok by apply remove_if_exists_eq. cbv beta.
  destruct (j_output_path job) as [p|].
  - erewrite bind_Ok by apply remove_if_exists_eq. cbv beta. mrun.
    rewrite save_jobs_eq. done.
  - mrun. rewrite save_jobs_eq. done.
Qed.

Lemma write_upload_eq (name : string) (contents : @file Frame) st :
  write_upload name contents st
  = if 0 <=? rfind "/"%char name
    then (st, Raise (FileNotFoundError (path_join UPLOAD_DIR name)))
    else (set_disk (<[path_join UPLOAD_DIR name := contents]> (disk st)) st,
          Ok (path_join UPLOAD_DIR name)).
Proof.
  unfold write_upload, on_disk. destruct (0 <=? rfind "/"%char name); [done|]. by mrun.
Qed.

Lemma upload_video_cases (uuid4 : string) (file : UploadFile) st :
  let name := u_filename file in
  let stored := uuid4 +:+ "_" +:+ name in
  let path := path_join UPLOAD_DIR stored in
  match (validate_video_file name (u_size file) st).2 with
  | Ok _ =>
      if 0 <=? rfind "/"%char stored
      then upload_video uuid4 file st = (st, Raise (FileNotFoundError path))
      else exists a,
        upload_video uuid4 file st
        = (saved (set_jobs (<[uuid4 := uploaded_job uuid4 name path]> (jobs st))
                    (set_disk (<[path := u_contents file]> (disk st)) st)),
           Ok (mk_upload_response uuid4 name (u_size file) (Some a)
                 "Video uploaded successfully"))
  | Raise e => upload_video uuid4 file st = (st, Raise e)
  | NoReturn => False
  end.
Proof.
  intros name stored path. unfold upload_video. fold name stored.
  pose proof (validate_video_file_cases name (u_size file) st) as Hval.
  destruct (validate_video_file name (u_size file) st) as [st0 r] eqn:Ev.
  injection Hval as -> Hr. cbn [snd].
  destruct r as [b|e|].
  - erewrite bind_Ok by exact Ev. cbv beta.
    pose proof (write_upload_eq stored (u_contents file) st) as Ew. fold path in Ew.
    destruct (0 <=? rfind "/"%char stored).
    { unfold mbind, M_bind. by rewrite Ew. }
    erewrite bind_Ok by exact Ew. cbv beta.
    destruct (get_video_analytics_cases (Some (u_size file))
                (init path default_segment_duration)
                (<[path := u_contents file]> (disk st))) as (a & Ea & _).
    exists a. unfold on_disk, try_except, zoom, mbind, M_bind, mret, M_ret, modify.
    cbn [disk set_disk]. rewrite Ea. cbn [disk set_disk set_jobs jobs].
    rewrite save_jobs_eq. by destruct st.
  - unfold mbind at 1, M_bind at 1. by rewrite Ev.
  - by destruct (bool_decide _), (u_size file <=? 104857600).
Qed.

Lemma process_video_task_eq h job_id video_path filter_type
    (fs : gmap string (@file Frame)) :
  process_video_task h job_id video_path filter_type fs
  = let r := process_video h (init video_path default_segment_duration) filter_type
               (job_id +:+ "_processed.mp4") fs in
    (r.1, match r.2 with
          | Ok result => Ok (job_id, result)
          | Raise e => Ok (job_id, Failure (exn_str e))
          | NoReturn => NoReturn
          end).
Proof.
  unfold process_video_task, try_except. unfold mbind, M_bind.
  destruct (process_video _ _ _ _ fs) as [fs' [r|e|]]; done.
Qed.

Lemma process_in_background_cases h job_id video_path filter_type st :
  let run := process_video_task h job_id video_path filter_type (disk st) in
  match run.2 with
  | Ok (_, result) =>
      match jobs st !! job_id with
      | Some job =>
          process_in_background h job_id video_path filter_type st
          = (saved (set_jobs (<[job_id := recorded result job]> (jobs st))
                      (set_disk run.1 st)), Ok tt)
      | None =>
          process_in_background h job_id video_path filter_type st
          = (set_disk run.1 st, Raise (KeyError job_id))
      end
  | Raise _ => False
  | NoReturn =>
      process_in_background h job_id video_path filter_type st
      = (set_disk run.1 st, NoReturn)
  end.
Proof.
  intros run. subst run.
  pose proof (process_video_task_never_raises h job_id video_path filter_type (disk st)) as Hnr.
  unfold process_in_background, process_in_background_from, on_disk, try_except,
    jobs_setitem, jobs_getitem, update_job.
  unfold zoom, mbind, M_bind.
  destruct (process_video_task h job_id video_path filter_type (disk st))
    as [fs' [[id result]|e|]]; cbn [fst snd].
  - mrun. destruct (jobs st !! job_id) as [job|] eqn:Hjob; mrun.
    + assert (Hmap : forall f g : main.job -> main.job,
                alter g job_id (alter f job_id (jobs st)) = <[job_id := g (f job)]> (jobs st)).
      { intros f g. apply map_eq. intros k.
        destruct (decide (job_id = k)) as [<-|Hne].
        - by rewrite !lookup_alter_eq, lookup_insert_eq, Hjob.
        - by rewrite !lookup_alter_ne, lookup_insert_ne. }
      destruct result as [m|err]; mrun; rewrite Hmap, save_jobs_eq; reflexivity.
    + by rewrite Hjob.
  - by apply (Hnr e).
  - done.
Qed.

End ServiceMore.

Section ServiceProperties.

Context {Frame : Type} `{!PixelTransforms Frame}.
Implicit Types st : @state Frame.

(** X18: Saving and restarting: [save_jobs] followed by the start-up of a new
    process, whose table starts from nothing, gives back the table that was
    saved when the jobs file can be written; when it cannot, [save_jobs]
    still returns, and the restart brings back what the file held before,
    the empty table if it held nothing readable. *)
Theorem restart_restores_saved_table st (lost : gmap string job) :
  let st1 := (save_jobs st).1 in
  let st2 := (startup (set_jobs lost st1)).1 in
  (save_jobs st).2 = Ok tt
  /\ (startup (set_jobs lost st1)).2 = Ok tt
  /\ jobs st2 = (if jobs_file_writable st then jobs st
                 else match jobs_file st with Holds d => d | _ => ∅ end)
  /\ disk st2 = disk st.
Proof.
  intros st1 st2. subst st2 st1. rewrite save_jobs_eq. cbn [fst snd].
  rewrite startup_eq. cbn [fst snd]. split; [done|]. split; [done|].
  unfold saved. destruct st as [j f w d t]. simpl. by destruct w.
Qed.

(** X19: [cleanup_job] on a job of the table returns, removes the job from the
    table and the jobs file, and leaves neither the uploaded file nor the
    output file on disk, whether or not they were there; every other file
    and the list of scheduled background runs are as they were. *)
Theorem cleanup_job_removes_job_and_files (job_id : string) st (job : job) :
  jobs st !! job_id = Some job ->
  exists st',
    cleanup_job job_id st = (st', Ok "Job cleaned up successfully")
    /\ jobs st' = delete job_id (jobs st)
    /\ disk st' !! file_path job = None
    /\ (forall p, j_output_path job = Some p -> disk st' !! p = None)
    /\ (forall p, p ≠ file_path job -> j_output_path job ≠ Some p ->
          disk st' !! p = disk st !! p)
    /\ tasks st' = tasks st
    /\ (jobs_file_writable st = true -> jobs_file st' = Holds (delete job_id (jobs st))).
Proof.
  intros Hjob. pose proof (cleanup_job_cases job_id st) as Hc. rewrite Hjob in Hc.
  eexists. split; [exact Hc|].
  unfold saved. destruct st as [j f w d t]. cbn in *.
  destruct (j_output_path job) as [out|]; cbn [from_option id].
  - destruct w; cbn; (split; [done|]); (split; [|split; [|split; [|split; [done|]]]]).
    all: try (intros; done).
    + destruct (decide (out = file_path job)) as [->|Hne];
        [by rewrite lookup_delete_eq|by rewrite lookup_delete_ne, lookup_delete_eq].
    + intros p [= <-]. by rewrite lookup_delete_eq.
    + intros p Hp Ho. rewrite !lookup_delete_ne by congruence. done.
    + destruct (decide (out = file_path job)) as [->|Hne];
        [by rewrite lookup_delete_eq|by rewrite lookup_delete_ne, lookup_delete_eq].
    + intros p [= <-]. by rewrite lookup_delete_eq.
    + intros p Hp Ho. rewrite !lookup_delete_ne by congruence. done.
  - destruct w; cbn; (split; [done|]); (split; [|split; [|split; [|split; [done|]]]]).
    all: try (intros; done).
    + by rewrite lookup_delete_eq.
    + intros p Hp _. by rewrite lookup_delete_ne.
    + by rewrite lookup_delete_eq.
    + intros p Hp _. by rewrite lookup_delete_ne.
Qed.

(** X20: With a jobs file that can be written, every operation that changes
    the table and returns leaves the file holding exactly the table:
    [upload_video], [start_processing], [process_in_background] and
    [cleanup_job]. *)
Theorem jobs_file_tracks_table (h : host) st :
  jobs_file_writable st = true ->
  (forall uuid4 file st' r,
      upload_video uuid4 file st = (st', Ok r) -> jobs_file st' = Holds (jobs st'))
  /\ (forall request st' r,
      start_processing request st = (st', Ok r) -> jobs_file st' = Holds (jobs st'))
  /\ (forall job_id video_path filter_type st',
      process_in_background h job_id video_path filter_type st = (st', Ok tt) ->
      jobs_file st' = Holds (jobs st'))
  /\ (forall job_id st' r,
      cleanup_job job_id st = (st', Ok r) -> jobs_file st' = Holds (jobs st')).
Proof.
  intros Hw.
  assert (Hsaved : forall s : @state Frame,
             jobs_file_writable s = true -> jobs_file (saved s) = Holds (jobs (saved s))).
  { intros s Hs. unfold saved. rewrite Hs. done. }
  split; [|split; [|split]].
  - intros uuid4 file st' r E.
    pose proof (upload_video_cases uuid4 file st) as Hc. cbv zeta in Hc.
    destruct (validate_video_file _ _ st).2 as [b|e|]; [| |done].
    + destruct (0 <=? rfind "/"%char _); [congruence|].
      destruct Hc as (a & Hc). rewrite Hc in E. injection E as <- _.
      apply Hsaved. by destruct st.
    + congruence.
  - intros request st' r E. unfold start_processing in E.
    apply bind_Ok_inv in E as (s1 & st0 & E0 & E). injection E0 as <- <-.
    destruct (jobs st !! req_job_id request) as [job|]; [|done].
    destruct (negb _); [done|].
    apply bind_Ok_inv in E as (s1 & [] & E1 & E). injection E1 as <-.
    apply bind_Ok_inv in E as (s2 & [] & E2 & E). injection E2 as <-.
    apply bind_Ok_inv in E as (s3 & [] & E3 & E). rewrite save_jobs_eq in E3.
    injection E3 as <-.
    apply bind_Ok_inv in E as (s4 & [] & E4 & E). injection E4 as <-.
    injection E as <- _. unfold saved. destruct st as [j f w d t]. simpl in *.
    by rewrite Hw.
  - intros job_id video_path filter_type st' E.
    pose proof (process_in_background_cases h job_id video_path filter_type st) as Hc.
    cbv zeta in Hc.
    destruct (process_video_task h job_id video_path filter_type (disk st)).2
      as [[id result]|e|]; [| done |congruence].
    destruct (jobs st !! job_id) as [job|]; [|congruence].
    rewrite Hc in E. injection E as <-. apply Hsaved. by destruct st.
  - intros job_id st' r E.
    pose proof (cleanup_job_cases job_id st) as Hc.
    destruct (jobs st !! job_id) as [job|]; [|congruence].
    rewrite Hc in E. injection E as <- _. apply Hsaved. by destruct st.
Qed.

(** X21: The outcomes of [upload_video].  An upload that fails validation is
    rejected with the validation's error; a stored name with a separator in
    it has no directory to be written to; in both cases the service is as
    it was.  Every other upload is stored as [uploads/<id>_<name>], gets a
    record with status ['uploaded'] under the new identifier, is saved, and
    is answered with the identifier, the name, the size and an analytics
    dictionary. *)
Theorem upload_video_outcomes (uuid4 : string) (file : UploadFile) st :
  let name := u_filename file in
  let stored := uuid4 +:+ "_" +:+ name in
  let path := path_join UPLOAD_DIR stored in
  match (validate_video_file name (u_size file) st).2 with
  | Ok _ =>
      if 0 <=? rfind "/"%char stored
      then upload_video uuid4 file st = (st, Raise (FileNotFoundError path))
      else exists a,
        upload_video uuid4 file st
        = (saved (set_jobs (<[uuid4 := uploaded_job uuid4 name path]> (jobs st))
                    (set_disk (<[path := u_contents file]> (disk st)) st)),
           Ok (mk_upload_response uuid4 name (u_size file) (Some a)
                 "Video uploaded successfully"))
  | Raise e => upload_video uuid4 file st = (st, Raise e)
  | NoReturn => False
  end.
Proof. apply upload_video_cases. Qed.

(** X22: The outcomes of a background run.  If the executor's task returns and
    the job is in the table, the run returns, the job's status is
    ['completed'] with the metrics of the result or ['failed'] with its
    error, and the table is saved.  If the job has left the table, the run
    raises [KeyError].  If the task never completes, neither does the run,
    and the record is not touched.  In every case what the task did on
    disk stays. *)
Theorem background_run_outcomes (h : host) (job_id video_path filter_type : string) st :
  let run := process_video_task h job_id video_path filter_type (disk st) in
  match run.2 with
  | Ok (_, result) =>
      match jobs st !! job_id with
      | Some job =>
          process_in_background h job_id video_path filter_type st
          = (saved (set_jobs (<[job_id := recorded result job]> (jobs st))
                      (set_disk run.1 st)), Ok tt)
      | None =>
          process_in_background h job_id video_path filter_type st
          = (set_disk run.1 st, Raise (KeyError job_id))
      end
  | Raise _ => False
  | NoReturn =>
      process_in_background h job_id video_path filter_type st
      = (set_disk run.1 st, NoReturn)
  end.
Proof. apply process_in_background_cases. Qed.

Lemma download_video_cases (job_id : string) st :
  download_video job_id st
  = (st, match jobs st !! job_id with
         | None => Raise (HTTPException 404 "Job not found")
         | Some job =>
             if negb (String.eqb (status job) "completed")
             then Raise (HTTPException 400
                           ("Video not ready. Current status: " +:+ status job))
             else match j_output_path job with
                  | Some p =>
                      if negb (String.eqb p "") && bool_decide (is_Some (disk st !! p))
                      then match output_filename job with
                           | Some name => Ok (mk_file_response p "video/mp4" name)
                           | None => Raise (KeyError "output_filename")
                           end
                      else Raise (HTTPException 404 "Output file not found")
                  | None => Raise (HTTPException 404 "Output file not found")
                  end
         end).
Proof.
  unfold download_video, on_disk, path_exists. mrun.
  destruct (jobs st !! job_id) as [job|]; [|done].
  destruct (negb (String.eqb (status job) "completed")); [done|].
  destruct (j_output_path job) as [p|]; [|done].
  destruct (String.eqb p ""); mrun; [done|].
  destruct (bool_decide (is_Some (disk st !! p))); mrun; [|by destruct st].
  destruct (output_filename job); by destruct st.
Qed.

(** X23: The two queries change nothing, whatever they answer.  [get_status]
    answers for exactly the jobs of the table, and [download_video]
    returns a file exactly when the job is ['completed'], its record names
    an output path that is on disk and an output file name; the response
    then carries that path, that name and the media type ['video/mp4']. *)
Theorem queries_change_nothing (job_id : string) st :
  (get_status job_id st).1 = st
  /\ (download_video job_id st).1 = st
  /\ (is_Some (jobs st !! job_id) <-> exists s, (get_status job_id st).2 = Ok s)
  /\ (forall r,
        (download_video job_id st).2 = Ok r
        <-> exists job,
              jobs st !! job_id = Some job
              /\ status job = "completed"
              /\ j_output_path job = Some (fr_path r)
              /\ fr_path r ≠ ""
              /\ is_Some (disk st !! fr_path r)
              /\ output_filename job = Some (fr_filename r)
              /\ fr_media_type r = "video/mp4").
Proof.
  split; [|split; [|split]].
  - unfold get_status. mrun. by destruct (jobs st !! job_id).
  - by rewrite download_video_cases.
  - unfold get_status. mrun. destruct (jobs st !! job_id) as [job|]; simpl.
    + split; [eauto|]. intros _. by eexists.
    + split; [by intros [? ?]|]. by intros [? ?].
  - intros r. rewrite download_video_cases. cbn [snd]. split.
    + destruct (jobs st !! job_id) as [job|]; [|done].
      destruct (String.eqb_spec (status job) "completed") as [Hs|Hs]; [|done]. cbn [negb].
      destruct (j_output_path job) as [p|] eqn:Hp; [|done].
      destruct (String.eqb_spec p "") as [He|He]; [done|]. cbn [negb andb].
      destruct (bool_decide (is_Some (disk st !! p))) eqn:Hd; [|done].
      apply bool_decide_eq_true_1 in Hd.
      destruct (output_filename job) as [name|] eqn:Hn; [|done].
      intros [= <-]. exists job. simpl. by rewrite Hp.
    + intros (job & -> & Hs & Hp & He & Hd & Hn & Hm).
      rewrite Hs, Hp, Hn. cbn [String.eqb negb].
      destruct (String.eqb_spec (fr_path r) "") as [?|_]; [done|]. cbn [negb andb].
      rewrite bool_decide_eq_true_2 by done.
      destruct r as [p ty name]. simpl in *. by rewrite Hm.
Qed.

End ServiceProperties.

(** ** From upload to download *)

Lemma list_ascii_app a b :
  list_ascii_of_string (a +:+ b) = list_ascii_of_string a ++ list_ascii_of_string b.
Proof. induction a as [|x a IH]; [done|]. simpl. by rewrite IH. Qed.

Lemma string_app_assoc a b c : (a +:+ b) +:+ c = a +:+ (b +:+ c).
Proof.
  induction a as [|x a IH]; [done|].
  change (String x ((a +:+ b) +:+ c) = String x (a +:+ b +:+ c)). by rewrite IH.
Qed.

Lemma prefix_sep_absent s :
  ~ In "/"%char (list_ascii_of_string s) -> String.prefix "/" s = false.
Proof.
  destruct s as [|c s]; [done|]. intros Hin.
  change (String.prefix "/" (String c s))
    with (match ascii_dec "/" c with left _ => String.prefix "" s | right _ => false end).
  destruct (ascii_dec "/" c) as [<-|?]; [|done]. simpl in Hin. tauto.
Qed.

Lemma basename_from_plain s : forall cur,
  ~ In "/"%char (list_ascii_of_string s) -> basename_from cur s = cur +:+ s.
Proof.
  induction s as [|c s IH]; intros cur Hin; simpl in *.
  - induction cur as [|x cur IHc]; [done|].
    change (String x cur = String x (cur +:+ "")). by rewrite <- IHc.
  - destruct (Ascii.eqb_spec c "/") as [->|Hne]; [tauto|].
    rewrite IH by tauto. apply string_app_assoc.
Qed.

Lemma basename_from_app a b : forall cur,
  basename_from cur (a +:+ b) = basename_from (basename_from cur a) b.
Proof.
  induction a as [|x a IH]; intros cur; [done|].
  change (String x a +:+ b) with (String x (a +:+ b)). cbn [basename_from].
  destruct (Ascii.eqb x "/"); apply IH.
Qed.

Section UploadToDownload.

Context {Frame : Type} `{!PixelTransforms Frame}.
Implicit Types st : @state Frame.

Lemma saved_fields st :
  jobs (saved st) = jobs st /\ disk (saved st) = disk st /\ tasks (saved st) = tasks st.
Proof. unfold saved. by destruct (jobs_file_writable st). Qed.

Lemma get_status_eq (job_id : string) st (job : job) :
  jobs st !! job_id = Some job ->
  get_status job_id st
  = (st, Ok (mk_status job_id (status job) None
               (j_sequential_time job) (j_parallel_time job) (j_speedup job)
               (j_segments_processed job) (j_cpu_cores_used job)
               (output_filename job) (error job))).
Proof. intros Hjob. unfold get_status. mrun. by rewrite Hjob. Qed.

Lemma upload_process_download_run (h : host) (uuid4 : string) (file : UploadFile)
    (filter_type : string) st (v : video) :
  let name := u_filename file in
  let path := "uploads/" +:+ uuid4 +:+ "_" +:+ name in
  let out_name := uuid4 +:+ "_processed.mp4" in
  let outp := "outputs/" +:+ out_name in
  let n := Z.to_nat (py_int (v_fps v * default_segment_duration)) in
  let m := segments_after n (length (v_frames v)) in
  (validate_video_file name (u_size file) st).2 = Ok true ->
  rfind "/"%char (uuid4 +:+ "_" +:+ name) = -1 ->
  u_contents file = FVideo v ->
  filter_type ∈ valid_filters ->
  1 <= py_int (v_fps v * default_segment_duration) ->
  v_frames v ≠ [] ->
  writer_opens h avc1 (v_fps v) (v_width v) (v_height v) = true ->
  1 <= cpu_count h ->
  completion_order h ≡ₚ seq 0 m ->
  is_transient (init path default_segment_duration) outp = false ->
  exists st1 st2 st3 response report,
    upload_video uuid4 file st = (st1, Ok response)
    /\ ur_job_id response = uuid4
    /\ start_processing (mk_request uuid4 filter_type) st1
       = (st2, Ok ("Processing started", uuid4, filter_type))
    /\ tasks st2 = tasks st ++ [mk_task uuid4 path filter_type]
    /\ process_in_background h uuid4 path filter_type st2 = (st3, Ok tt)
    /\ get_status uuid4 st3 = (st3, Ok report)
    /\ s_status report = "completed"
    /\ s_output_filename report = Some out_name
    /\ s_segments_processed report = Some (Z.of_nat m)
    /\ s_cpu_cores_used report = Some (cpu_count h)
    /\ s_error report = None
    /\ download_video uuid4 st3 = (st3, Ok (mk_file_response outp "video/mp4" out_name))
    /\ frames_at (disk st3) outp = get_filter_function filter_type <$> v_frames v.
Proof.
  intros name path out_name outp n m Hval Hsep Hcontents Hfilter HL Hframes Henc Hcpu
    Hperm Houtp.
  apply rfind_absent in Hsep as Hnosep.
  assert (Hstored : path_join UPLOAD_DIR (uuid4 +:+ "_" +:+ name) = path).
  { unfold path_join. by rewrite prefix_sep_absent. }
  assert (Huuid : ~ In "/"%char (list_ascii_of_string uuid4)).
  { intros Hin. apply Hnosep. rewrite list_ascii_app. apply in_or_app. by left. }
  assert (Hout_name : ~ In "/"%char (list_ascii_of_string out_name)).
  { unfold out_name. rewrite list_ascii_app. intros Hin.
    apply in_app_or in Hin as [Hin|Hin]; [done|].
    simpl in Hin. repeat (destruct Hin as [Hin|Hin]; [discriminate|]). done. }
  (* the upload *)
  pose proof (upload_video_cases uuid4 file st) as Hup. cbv zeta in Hup.
  fold name in Hup. rewrite Hval, Hsep, Hstored in Hup.
  change (0 <=? -1) with false in Hup. cbv iota in Hup. destruct Hup as (a & Hup).
  set (job0 := uploaded_job uuid4 name path) in *.
  set (st1 := saved (set_jobs (<[uuid4 := job0]> (jobs st))
                       (set_disk (<[path := u_contents file]> (disk st)) st))) in *.
  assert (Hj1 : jobs st1 = <[uuid4 := job0]> (jobs st)).
  { unfold st1. rewrite (proj1 (saved_fields _)). by destruct st. }
  assert (Hd1 : disk st1 = <[path := FVideo v]> (disk st)).
  { unfold st1. rewrite (proj1 (proj2 (saved_fields _))), Hcontents. by destruct st. }
  assert (Ht1 : tasks st1 = tasks st).
  { unfold st1. rewrite (proj2 (proj2 (saved_fields _))). by destruct st. }
  (* the request *)
  pose proof (start_processing_cases st1 (mk_request uuid4 filter_type)) as Hstart.
  cbv zeta in Hstart. cbn [req_job_id req_filter_type] in Hstart.
  rewrite Hj1, lookup_insert_eq, bool_decide_eq_true_2 in Hstart by done.
  destruct Hstart as (st2 & Hstart & Hj2 & Ht2 & Hd2).
  set (job2 := set_filter_type filter_type (set_status "processing" job0)) in *.
  (* the run *)
  assert (Hcatalog : is_Some (dict_get (FILTERS (Frame:=Frame)) filter_type)).
  { apply (bool_decide_eq_true_1 _).
    rewrite <- (proj1 (filter_catalogs_same filter_type)).
    by apply bool_decide_eq_true_2. }
  assert (Hvp : is_transient (init path default_segment_duration) path = false)
    by reflexivity.
  assert (Houtp_join : path_join (output_dir (init path default_segment_duration)) out_name
                       = outp).
  { unfold path_join. by rewrite prefix_sep_absent. }
  destruct (process_video_run h path default_segment_duration filter_type out_name
              (<[path := FVideo v]> (disk st)) v)
    as (fs' & result & Erun & Hout & Hsegs & Hcores & _ & Hfr & _);
    [done|by rewrite lookup_insert_eq|done|done|done|done|done|done
    |by rewrite Houtp_join|].
  rewrite Houtp_join in Hout, Hfr.
  pose proof (process_in_background_cases h uuid4 path filter_type st2) as Hbg.
  cbv zeta in Hbg. rewrite process_video_task_eq in Hbg. cbv zeta in Hbg.
  rewrite Hd2, Hd1 in Hbg. fold out_name in Hbg. rewrite Erun in Hbg.
  cbn [fst snd] in Hbg.
  rewrite Hj2, lookup_insert_eq in Hbg.
  set (job3 := recorded (Success result) job2) in *.
  set (st3 := saved (set_jobs (<[uuid4 := job3]> (<[uuid4 := job2]> (<[uuid4 := job0]> (jobs st))))
                       (set_disk fs' st2))) in *.
  assert (Hj3 : jobs st3 !! uuid4 = Some job3).
  { unfold st3. rewrite (proj1 (saved_fields _)). cbn [jobs set_jobs].
    by rewrite lookup_insert_eq. }
  assert (Hd3 : disk st3 = fs').
  { unfold st3. rewrite (proj1 (proj2 (saved_fields _))). by destruct st2. }
  assert (Hbase : basename outp = out_name).
  { unfold basename, outp. rewrite basename_from_app.
    change (basename_from "" "outputs/") with "". by rewrite basename_from_plain. }
  assert (Hexists : is_Some (fs' !! outp)).
  { destruct (fs' !! outp) as [x|] eqn:Hx; [done|].
    unfold frames_at, decode in Hfr. rewrite Hx in Hfr. simpl in Hfr.
    destruct (v_frames v); [done|discriminate]. }
  exists st1, st2, st3. eexists. eexists.
  split; [exact Hup|]. split; [done|]. split; [exact Hstart|].
  split; [by rewrite Ht2, Ht1|]. split; [exact Hbg|].
  split; [by apply get_status_eq|]. cbn [s_status s_output_filename s_segments_processed
    s_cpu_cores_used s_error].
  unfold job3. cbn [recorded set_results status output_filename j_segments_processed
    j_cpu_cores_used error set_status set_filter_type job2 job0 uploaded_job].
  rewrite Hout, Hbase, Hsegs, Hcores.
  split; [done|]. split; [done|]. split; [done|]. split; [done|]. split; [done|].
  split; [|by rewrite Hd3].
  rewrite download_video_cases, Hj3. unfold job3.
  cbn [recorded set_results status output_filename j_output_path set_status].
  rewrite Hout, Hbase, Hd3. cbn [String.eqb negb Ascii.eqb].
  rewrite bool_decide_eq_true_2 by done. done.
Qed.

End UploadToDownload.


(** ** More concrete runs *)

Lemma three_segments_open seg :
  seg ∈ three_segments -> cap_opened (decode three_segments_disk seg) = true.
Proof.
  intros Hin. unfold three_segments in Hin.
  repeat (apply elem_of_cons in Hin as [->|Hin]; [reflexivity|]).
  by apply elem_of_nil in Hin.
Qed.

Lemma three_segments_apart_seq vp d seg j :
  seg ∈ three_segments -> seg ≠ seq_path (init vp d) j.
Proof.
  intros Hin. rewrite seq_path_init. unfold three_segments in Hin.
  repeat (apply elem_of_cons in Hin as [->|Hin]; [discriminate|]).
  by apply elem_of_nil in Hin.
Qed.

(** Without 'avc1', the sample clip is cut into three named segments of
    which none is written. *)
Lemma split_video_without_avc1_witness :
  split_video mp4v_only_host (init "uploads/job-1_clip.mp4" 10) sample_disk
  = (sample_disk,
     Ok ["segments/segment_000.mp4"; "segments/segment_001.mp4";
         "segments/segment_002.mp4"]).
Proof.
  apply (split_video_without_avc1 mp4v_only_host (init "uploads/job-1_clip.mp4" 10)
           sample_disk sample_clip).
  - reflexivity.
  - reflexivity.
  - vm_compute. discriminate.
Defined.

(** The three segments, filtered one after the other and by a pool whose
    workers finish in the order 2, 0, 1. *)
Lemma sequential_matches_parallel_witness :
  exists fs_seq fs_par,
    process_sequential sample_host (9 # 2) (init "uploads/job-1_clip.mp4" 10)
      three_segments "grayscale" three_segments_disk
    = (fs_seq, Ok (["outputs/seq_processed_000.mp4"; "outputs/seq_processed_001.mp4";
                    "outputs/seq_processed_002.mp4"], 9 # 2))
    /\ process_parallel sample_host (init "uploads/job-1_clip.mp4" 10)
         three_segments "grayscale" three_segments_disk
       = (fs_par, Ok (["outputs/par_processed_000.mp4"; "outputs/par_processed_001.mp4";
                       "outputs/par_processed_002.mp4"], 3 # 2))
    /\ frames_at fs_seq "outputs/seq_processed_001.mp4"
       = frames_at fs_par "outputs/par_processed_001.mp4".
Proof.
  destruct (sequential_matches_parallel sample_host [2; 0; 1]%nat (9 # 2)
              "uploads/job-1_clip.mp4" 10 three_segments "grayscale" three_segments_disk)
    as (fs_seq & fs_par & Hs & Hp & Hsame & _).
  - vm_compute. discriminate.
  - apply (Permutation_cons_app [0; 1]%nat [] 2%nat). reflexivity.
  - apply three_segments_open.
  - intros seg j. apply three_segments_apart.
  - intros seg j. apply three_segments_apart_seq.
  - intros seg Hin. reflexivity.
  - exists fs_seq, fs_par. split; [exact Hs|]. split; [exact Hp|].
    unfold frames_at. f_equal. apply (Hsame 1%nat). simpl. lia.
Defined.


Lemma process_video_unknown_filter_witness :
  process_video sample_host (init "uploads/job-1_clip.mp4" 10) "vignette"
    "job-1_processed.mp4" sample_disk
  = (sample_disk,
     Ok (Failure ("Unknown filter: vignette. Available: ['grayscale', 'blur', 'sepia', "
                  +:+ "'brightness', 'contrast', 'saturation', 'warm_tone', 'cool_tone', "
                  +:+ "'edge_detection']"))).
Proof.
  apply (process_video_unknown_filter sample_host (init "uploads/job-1_clip.mp4" 10)
           "vignette" "job-1_processed.mp4" sample_disk).
  reflexivity.
Defined.



(** Cleaning up the finished job of the sample service. *)
Lemma cleanup_job_removes_job_and_files_witness :
  exists st',
    cleanup_job "job-1" service_after_completion = (st', Ok "Job cleaned up successfully")
    /\ jobs st' = ∅
    /\ disk st' !! "uploads/job-1_clip.mp4" = None
    /\ disk st' !! "outputs/job-1_processed.mp4" = None
    /\ jobs_file st' = Holds ∅.
Proof.
  destruct (cleanup_job_removes_job_and_files "job-1" service_after_completion finished_job)
    as (st' & Hrun & Hjobs & Hup & Hout & _ & _ & Hfile).
  - reflexivity.
  - exists st'. split; [exact Hrun|]. split; [by rewrite Hjobs|].
    split; [exact Hup|]. split; [by apply Hout|]. rewrite Hfile by reflexivity.
    f_equal.
Defined.

(** The sample service, whose jobs file can be written. *)
Lemma jobs_file_tracks_table_witness :
  jobs_file submitted.1 = Holds (jobs submitted.1).
Proof.
  destruct (jobs_file_tracks_table sample_host service_after_upload) as (_ & Hstart & _).
  - reflexivity.
  - apply (Hstart (mk_request "job-1" "grayscale") submitted.1
             ("Processing started", "job-1", "grayscale")).
    reflexivity.
Defined.

